(** * The µOS++ mutex (os-mutex.cpp): a shallow embedding and its properties

    The development follows [os::rtos::mutex] as written in the source:
    [_init], [_try_lock], [lock], [try_lock], [timed_lock], [unlock],
    [prio_ceiling] (get and set), [consistent] and [reset].

    Threads live in a store indexed by their address; the mutex keeps the
    address of its owner and the addresses of the waiting threads.  A
    dereference of an address that is not in the store has no defined
    behaviour in C++ and is a fault ([None]) here. *)

From stdpp Require Import gmap list.
From Stdlib Require Import ZArith.

Open Scope Z_scope.

(** ** Results *)

(** [result_t]: [result::ok] and the POSIX error numbers the mutex uses.
    Two constructors are two different numbers. *)
Inductive result_t : Type :=
| ok
| EPERM
| EINVAL
| EAGAIN
| EDEADLK
| ETIMEDOUT
| EINTR
| EOWNERDEAD
| ENOTRECOVERABLE
| ENOTSUP.

#[global] Instance result_t_eq_dec : EqDecision result_t.
Proof. solve_decision. Defined.

(** [<errno.h>] has [#define EWOULDBLOCK EAGAIN]: the two names are one
    number, and a comparison with [EWOULDBLOCK] is a comparison with
    [EAGAIN]. *)
Definition EWOULDBLOCK : result_t := EAGAIN.

(** ** Threads *)

(** The address of a thread object. *)
Definition tid : Type := nat.

(** [thread::priority_t] is [uint8_t]; priorities are only copied and
    compared by the mutex, never computed with, so they are kept as the
    integers they denote.  Higher values are higher priorities. *)
Definition priority_t : Type := Z.

Module priority.
Definition none : priority_t := 0.
Definition idle : priority_t := Z.shiftl 1 4.
Definition lowest : priority_t := Z.shiftl 2 4.
Definition low : priority_t := Z.shiftl 2 4.
Definition below_normal : priority_t := Z.shiftl 4 4.
Definition normal : priority_t := Z.shiftl 6 4.
Definition above_normal : priority_t := Z.shiftl 8 4.
Definition high : priority_t := Z.shiftl 10 4.
Definition realtime : priority_t := Z.shiftl 12 4.
Definition highest : priority_t := Z.shiftl (13 + 1) 4 - 1.
Definition isr : priority_t := Z.shiftl (14 + 1) 4 - 1.
Definition error : priority_t := Z.shiftl (15 + 1) 4 - 1.
End priority.

(** [thread::state].  The waiting lists move a thread between [waiting]
    and [ready]. *)
Inductive state_t : Type :=
| undefined
| inactive
| ready
| running
| waiting
| terminated
| destroyed.

(** The members of [thread] the mutex reads and writes. *)
Record thread : Type := mk_thread {
  prio_ : priority_t;
  interrupted_ : bool;
  acquired_mutexes_ : Z;
  sched_state_ : state_t
}.

(** [std::size_t], the type of [acquired_mutexes_], has a width fixed by
    the platform. *)
Class Platform : Type := { size_t_bits : N }.

(** The 32-bit ports (Cortex-M). *)
Definition cortex_m : Platform := {| size_t_bits := 32 |}.

Definition size_wrap `{Platform} (x : Z) : Z := x mod 2 ^ Z.of_N size_t_bits.

(** ** The mutex object *)

Inductive type : Type := normal | errorcheck | recursive | _default.
Inductive protocol : Type := none | inherit | protect.
Inductive robustness : Type := stalled | robust.

#[global] Instance type_eq_dec : EqDecision type.
Proof. solve_decision. Defined.
#[global] Instance protocol_eq_dec : EqDecision protocol.
Proof. solve_decision. Defined.
#[global] Instance robustness_eq_dec : EqDecision robustness.
Proof. solve_decision. Defined.

(** [mutex::attributes]. *)
Record attributes : Type := mk_attributes {
  mx_type : type;
  mx_protocol : protocol;
  mx_robustness : robustness;
  mx_priority_ceiling : priority_t;
  mx_max_count : Z
}.

(** The data members of [mutex].  [list_] is the waiting list, head
    first. *)
Record mutex : Type := mk_mutex {
  type_ : type;
  protocol_ : protocol;
  robustness_ : robustness;
  max_count_ : Z;
  prio_ceiling_ : priority_t;
  owner_ : option tid;
  count_ : Z;
  owner_prio_ : priority_t;
  boosted_prio_ : priority_t;
  consistent_ : bool;
  recoverable_ : bool;
  list_ : list tid
}.

Definition with_owner (o : option tid) (m : mutex) : mutex :=
  mk_mutex (type_ m) (protocol_ m) (robustness_ m) (max_count_ m)
    (prio_ceiling_ m) o (count_ m) (owner_prio_ m) (boosted_prio_ m)
    (consistent_ m) (recoverable_ m) (list_ m).

Definition with_count (c : Z) (m : mutex) : mutex :=
  mk_mutex (type_ m) (protocol_ m) (robustness_ m) (max_count_ m)
    (prio_ceiling_ m) (owner_ m) c (owner_prio_ m) (boosted_prio_ m)
    (consistent_ m) (recoverable_ m) (list_ m).

Definition with_owner_prio (p : priority_t) (m : mutex) : mutex :=
  mk_mutex (type_ m) (protocol_ m) (robustness_ m) (max_count_ m)
    (prio_ceiling_ m) (owner_ m) (count_ m) p (boosted_prio_ m)
    (consistent_ m) (recoverable_ m) (list_ m).

Definition with_boosted_prio (p : priority_t) (m : mutex) : mutex :=
  mk_mutex (type_ m) (protocol_ m) (robustness_ m) (max_count_ m)
    (prio_ceiling_ m) (owner_ m) (count_ m) (owner_prio_ m) p
    (consistent_ m) (recoverable_ m) (list_ m).

Definition with_prio_ceiling (p : priority_t) (m : mutex) : mutex :=
  mk_mutex (type_ m) (protocol_ m) (robustness_ m) (max_count_ m)
    p (owner_ m) (count_ m) (owner_prio_ m) (boosted_prio_ m)
    (consistent_ m) (recoverable_ m) (list_ m).

Definition with_consistent (b : bool) (m : mutex) : mutex :=
  mk_mutex (type_ m) (protocol_ m) (robustness_ m) (max_count_ m)
    (prio_ceiling_ m) (owner_ m) (count_ m) (owner_prio_ m) (boosted_prio_ m)
    b (recoverable_ m) (list_ m).

Definition with_recoverable (b : bool) (m : mutex) : mutex :=
  mk_mutex (type_ m) (protocol_ m) (robustness_ m) (max_count_ m)
    (prio_ceiling_ m) (owner_ m) (count_ m) (owner_prio_ m) (boosted_prio_ m)
    (consistent_ m) b (list_ m).

Definition with_list (l : list tid) (m : mutex) : mutex :=
  mk_mutex (type_ m) (protocol_ m) (robustness_ m) (max_count_ m)
    (prio_ceiling_ m) (owner_ m) (count_ m) (owner_prio_ m) (boosted_prio_ m)
    (consistent_ m) (recoverable_ m) l.

(** ** The kernel seen from one mutex *)

(** The thread store, the mutex, the steady clock of the mutex with its
    list of timeout nodes, and the execution context
    ([interrupts::in_handler_mode ()], [scheduler::locked ()]). *)
Record kernel : Type := mk_kernel {
  threads : gmap tid thread;
  mx : mutex;
  steady_now : Z;
  steady_list : list (Z * tid);
  in_handler_mode : bool;
  locked : bool
}.

Definition with_threads (ts : gmap tid thread) (k : kernel) : kernel :=
  mk_kernel ts (mx k) (steady_now k) (steady_list k)
    (in_handler_mode k) (locked k).

Definition with_mx (m : mutex) (k : kernel) : kernel :=
  mk_kernel (threads k) m (steady_now k) (steady_list k)
    (in_handler_mode k) (locked k).

Definition with_steady_list (l : list (Z * tid)) (k : kernel) : kernel :=
  mk_kernel (threads k) (mx k) (steady_now k) l
    (in_handler_mode k) (locked k).

Definition upd_mx (f : mutex -> mutex) (k : kernel) : kernel :=
  with_mx (f (mx k)) k.

(** Writing a thread object back to its address. *)
Definition store_thread (t : tid) (th : thread) (k : kernel) : kernel :=
  with_threads (<[t := th]> (threads k)) k.

(** ** Thread and scheduler primitives used by the mutex *)

(** Modelled from the spec: the getter [thread::priority ()] is defined
    outside the files at hand; the thread capability is "read the current
    priority". *)
Definition thread_priority (t : tid) (k : kernel) : option priority_t :=
  prio_ <$> threads k !! t.

(** Modelled from the spec: the setter [thread::priority (prio)] is defined
    outside the files at hand; the thread capability is "write the current
    priority". *)
Definition thread_set_priority (t : tid) (p : priority_t) (k : kernel)
  : option kernel :=
  th ← threads k !! t;
  Some (store_thread t
          (mk_thread p (interrupted_ th) (acquired_mutexes_ th) (sched_state_ th))
          k).

(** [++(t->acquired_mutexes_)] and [--(t->acquired_mutexes_)]. *)
Definition incr_acquired `{Platform} (t : tid) (k : kernel) : option kernel :=
  th ← threads k !! t;
  Some (store_thread t
          (mk_thread (prio_ th) (interrupted_ th)
             (size_wrap (acquired_mutexes_ th + 1)) (sched_state_ th))
          k).

Definition decr_acquired `{Platform} (t : tid) (k : kernel) : option kernel :=
  th ← threads k !! t;
  Some (store_thread t
          (mk_thread (prio_ th) (interrupted_ th)
             (size_wrap (acquired_mutexes_ th - 1)) (sched_state_ th))
          k).

Definition set_sched_state (s : state_t) (t : tid) (k : kernel)
  : option kernel :=
  th ← threads k !! t;
  Some (store_thread t
          (mk_thread (prio_ th) (interrupted_ th) (acquired_mutexes_ th) s)
          k).

(** Modelled from the spec: [thread::resume ()] is defined outside the files
    at hand; "the resumed thread is moved to ready state". *)
Definition resume (t : tid) (k : kernel) : option kernel :=
  set_sched_state ready t k.

(** Modelled from the spec: [waiting_threads_list::resume_one ()] is defined
    outside the files at hand; the list is priority-ordered with ties
    broken FIFO, and the head is unlinked and resumed. *)
Definition resume_one (k : kernel) : option kernel :=
  match list_ (mx k) with
  | [] => Some k
  | t :: rest => resume t (upd_mx (with_list rest) k)
  end.

(** Modelled from the spec: [waiting_threads_list::resume_all ()] is defined
    outside the files at hand; it resumes the head until the list is
    empty. *)
Fixpoint resume_list (l : list tid) (k : kernel) : option kernel :=
  match l with
  | [] => Some k
  | t :: rest => k' ← resume t k; resume_list rest k'
  end.

Definition resume_all (k : kernel) : option kernel :=
  resume_list (list_ (mx k)) (upd_mx (with_list []) k).

(** The place of a new node in the priority-ordered waiting list: after
    every node of a priority not lower than [p]. *)
Fixpoint link_by_prio (ts : gmap tid thread) (p : priority_t) (t : tid)
    (l : list tid) : list tid :=
  match l with
  | [] => [t]
  | u :: rest =>
      match ts !! u with
      | Some uth =>
          if p >? prio_ uth then t :: u :: rest
          else u :: link_by_prio ts p t rest
      | None => u :: link_by_prio ts p t rest
      end
  end.

(** Modelled from the spec: [scheduler::_link_node (list, node)] is defined
    outside the files at hand; the node of the thread is linked into the
    waiting list and the thread goes to the waiting state. *)
Definition _link_node (crt : tid) (k : kernel) : option kernel :=
  th ← threads k !! crt;
  set_sched_state waiting crt
    (upd_mx (with_list (link_by_prio (threads k) (prio_ th) crt (list_ (mx k)))) k).

(** Modelled from the spec: [scheduler::_unlink_node (node)] is defined
    outside the files at hand; unlinking is idempotent, the waker may
    have unlinked the node already. *)
Definition _unlink_node (crt : tid) (k : kernel) : kernel :=
  upd_mx (with_list (filter (fun u => u ≠ crt) (list_ (mx k)))) k.

(** Modelled from the spec: the variants of [_link_node] and [_unlink_node]
    that also attach and detach the timeout node in the clock's list of
    timestamps. *)
Fixpoint link_by_timestamp (e : Z * tid) (l : list (Z * tid))
  : list (Z * tid) :=
  match l with
  | [] => [e]
  | e' :: rest =>
      if e.1 <? e'.1 then e :: e' :: rest
      else e' :: link_by_timestamp e rest
  end.

Definition _link_node_timeout (crt : tid) (timestamp : Z) (k : kernel)
  : option kernel :=
  k' ← _link_node crt k;
  Some (with_steady_list (link_by_timestamp (timestamp, crt) (steady_list k')) k').

Definition _unlink_node_timeout (crt : tid) (k : kernel) : kernel :=
  let k' := _unlink_node crt k in
  with_steady_list (filter (fun e => e.2 ≠ crt) (steady_list k')) k'.

(** ** Construction *)

(** The member initialisers of the constructor.  Modelled from the spec:
    the default member initialisers of [owner_], [owner_prio_] and
    [boosted_prio_] are in the class declaration, outside the files at
    hand; a constructed mutex has no owner, no waiters and no boost. *)
Definition mutex_members (attr : attributes) : mutex :=
  {| type_ := mx_type attr;
     protocol_ := mx_protocol attr;
     robustness_ := mx_robustness attr;
     max_count_ :=
       if decide (mx_type attr = recursive) then mx_max_count attr else 1;
     prio_ceiling_ := priority.none;
     owner_ := None;
     count_ := 0;
     owner_prio_ := priority.none;
     boosted_prio_ := priority.none;
     consistent_ := true;
     recoverable_ := true;
     list_ := [] |}.

(** [mutex::_init]. *)
Definition _init (k : kernel) : option kernel :=
  resume_all
    (upd_mx (with_recoverable true)
       (upd_mx (with_consistent true)
          (upd_mx (with_count 0) k))).

(** [mutex::mutex (name, attr)], constructing the mutex of [k] in place;
    [os_assert_throw] leaves with the error ([inl]). *)
Definition mutex_ctor (attr : attributes) (k : kernel)
  : option (result_t + kernel) :=
  let k1 := with_mx (mutex_members attr) k in
  if in_handler_mode k1 then Some (inl EPERM)
  else
    let k2 := upd_mx (with_prio_ceiling (mx_priority_ceiling attr)) k1 in
    if decide (robustness_ (mx k2) = robust) then Some (inl ENOTSUP)
    else k3 ← _init k2; Some (inr k3).

(** ** Blocking calls *)

(** [lock] and [timed_lock] suspend the calling thread in
    [port::scheduler::reschedule ()].  A [wakeup] is what the rest of the
    system (the other threads, the interrupt handlers, the clock) has done
    to the kernel when the thread runs again; a call is run against the
    list of the wake-ups the thread gets. *)
Definition wakeup : Type := kernel -> kernel.

(** The call returned [a], or the wake-ups were used up with the thread
    suspended in the waiting list, or a dangling thread address was
    dereferenced. *)
Inductive outcome (A : Type) : Type :=
| Done (a : A) (k : kernel)
| Blocked (k : kernel)
| Fault.
Arguments Done {A} a k.
Arguments Blocked {A} k.
Arguments Fault {A}.

(** ** Acquisition *)

Section Operations.
Context `{Platform}.

(** The first lock of [mutex::_try_lock], after the mutex is owned and
    counted: the actions of the protocol. *)
Definition first_lock_protocol (crt : tid) (k : kernel)
  : option (result_t * kernel) :=
  if decide (protocol_ (mx k) = inherit) then
    p ← thread_priority crt k;
    Some (ok, upd_mx (with_owner_prio p) k)
  else if decide (protocol_ (mx k) = protect) then
    p ← thread_priority crt k;
    if p >? prio_ceiling_ (mx k) then Some (EINVAL, k)
    else
      let k1 := upd_mx (with_owner_prio p) k in
      if prio_ceiling_ (mx k1) >? owner_prio_ (mx k1) then
        let k2 := upd_mx (with_boosted_prio (prio_ceiling_ (mx k1))) k1 in
        k3 ← thread_set_priority crt (boosted_prio_ (mx k2)) k2;
        Some (ok, k3)
      else Some (ok, k1)
  else Some (ok, k).

(** The kernel in the middle of the first lock of [_try_lock], when the
    mutex is owned by [crt] and counted and the protocol is about to be
    looked at; [th] is the thread object before the call. *)
Definition owned_by (crt : tid) (th : thread) (k : kernel) : kernel :=
  store_thread crt
    (mk_thread (prio_ th) (interrupted_ th)
       (size_wrap (acquired_mutexes_ th + 1)) (sched_state_ th))
    (upd_mx (with_count 1) (upd_mx (with_owner (Some crt)) k)).

(** [mutex::_try_lock]. *)
Definition _try_lock (crt : tid) (k : kernel) : option (result_t * kernel) :=
  let saved_owner := owner_ (mx k) in
  match owner_ (mx k) with
  | None =>
      let k1 := upd_mx (with_count 1) (upd_mx (with_owner (Some crt)) k) in
      k2 ← incr_acquired crt k1;
      first_lock_protocol crt k2
  | Some owner =>
      if decide (saved_owner = Some crt) then
        match type_ (mx k) with
        | recursive =>
            if count_ (mx k) >=? max_count_ (mx k) then Some (EAGAIN, k)
            else Some (ok, upd_mx (with_count (count_ (mx k) + 1)) k)
        | errorcheck => Some (EDEADLK, k)
        | normal => Some (EWOULDBLOCK, k)
        | _default => Some (EWOULDBLOCK, k)
        end
      else if decide (protocol_ (mx k) = inherit) then
        prio ← thread_priority crt k;
        owner_prio ← thread_priority owner k;
        if prio >? owner_prio then
          let k1 := upd_mx (with_boosted_prio prio) k in
          k2 ← thread_set_priority owner (boosted_prio_ (mx k1)) k1;
          Some (EWOULDBLOCK, k2)
        else Some (EWOULDBLOCK, k)
      else Some (EWOULDBLOCK, k)
  end.

(** [mutex::try_lock]. *)
Definition try_lock (crt : tid) (k : kernel) : option (result_t * kernel) :=
  if in_handler_mode k then Some (EPERM, k)
  else if negb (recoverable_ (mx k)) then Some (ENOTRECOVERABLE, k)
  else _try_lock crt k.

(** ** Release *)

(** [mutex::unlock]. *)
Definition unlock (crt : tid) (k : kernel) : option (result_t * kernel) :=
  if in_handler_mode k then Some (EPERM, k)
  else if decide (owner_ (mx k) = Some crt) then
    if bool_decide (type_ (mx k) = recursive) && (count_ (mx k) >? 1) then
      Some (ok, upd_mx (with_count (count_ (mx k) - 1)) k)
    else
      k1 ← (if decide (boosted_prio_ (mx k) ≠ priority.none) then
              k' ← thread_set_priority crt (owner_prio_ (mx k)) k;
              Some (upd_mx (with_boosted_prio priority.none) k')
            else Some k);
      k2 ← resume_one k1;
      k3 ← decr_acquired crt k2;
      Some (ok, upd_mx (with_count 0) (upd_mx (with_owner None) k3))
  else if bool_decide (type_ (mx k) = errorcheck)
          || bool_decide (type_ (mx k) = recursive)
          || bool_decide (robustness_ (mx k) = robust) then
    Some (EPERM, k)
  else Some (ENOTRECOVERABLE, k).

(** ** Blocking acquisition *)

(** The [for (;;)] loop of [mutex::lock]. *)
Fixpoint lock_loop (env : list wakeup) (crt : tid) (k : kernel)
  : outcome result_t :=
  match _try_lock crt k with
  | None => Fault
  | Some (res, k1) =>
      if decide (res ≠ EWOULDBLOCK) then Done res k1
      else
        match _link_node crt k1 with
        | None => Fault
        | Some k2 =>
            match env with
            | [] => Blocked k2
            | w :: env' =>
                let k3 := _unlink_node crt (w k2) in
                match threads k3 !! crt with
                | None => Fault
                | Some th =>
                    if interrupted_ th then Done EINTR k3
                    else lock_loop env' crt k3
                end
            end
        end
  end.

(** [mutex::lock]. *)
Definition lock (env : list wakeup) (crt : tid) (k : kernel)
  : outcome result_t :=
  if in_handler_mode k then Done EPERM k
  else if locked k then Done EPERM k
  else if negb (recoverable_ (mx k)) then Done ENOTRECOVERABLE k
  else
    match _try_lock crt k with
    | None => Fault
    | Some (res, k1) =>
        if decide (res ≠ EWOULDBLOCK) then Done res k1
        else lock_loop env crt k1
    end.

(** The highest priority in the waiting list, as the range-for of
    [timed_lock] computes it, starting from [max_prio]. *)
Fixpoint waiting_max_prio (ts : gmap tid thread) (l : list tid)
    (max_prio : priority_t) : option priority_t :=
  match l with
  | [] => Some max_prio
  | t :: rest =>
      th ← ts !! t;
      waiting_max_prio ts rest
        (if prio_ th >? max_prio then prio_ th else max_prio)
  end.

(** The exit of [timed_lock] on [EINTR] or [ETIMEDOUT]: the block
    [if (res != result::ok) { ... return res; }]. *)
Definition timed_lock_failed (k : kernel) : option kernel :=
  if decide (boosted_prio_ (mx k) ≠ priority.none) then
    max_prio ← waiting_max_prio (threads k) (list_ (mx k)) priority.none;
    if decide (max_prio ≠ priority.none) then
      let k1 := upd_mx (with_boosted_prio max_prio) k in
      owner ← owner_ (mx k1);
      thread_set_priority owner (boosted_prio_ (mx k1)) k1
    else Some k
  else Some k.

(** The result chosen after a wake-up of [timed_lock]. *)
Definition timed_lock_check (th : thread) (timeout_timestamp : Z) (k : kernel)
  : result_t :=
  if interrupted_ th then EINTR
  else if steady_now k >=? timeout_timestamp then ETIMEDOUT
  else ok.

(** The [for (;;)] loop of [mutex::timed_lock]. *)
Fixpoint timed_lock_loop (env : list wakeup) (crt : tid)
    (timeout_timestamp : Z) (k : kernel) : outcome result_t :=
  match _try_lock crt k with
  | None => Fault
  | Some (res, k1) =>
      if decide (res ≠ EWOULDBLOCK) then Done res k1
      else
        match _link_node_timeout crt timeout_timestamp k1 with
        | None => Fault
        | Some k2 =>
            match env with
            | [] => Blocked k2
            | w :: env' =>
                let k3 := _unlink_node_timeout crt (w k2) in
                match threads k3 !! crt with
                | None => Fault
                | Some th =>
                    let res := timed_lock_check th timeout_timestamp k3 in
                    if decide (res ≠ ok) then
                      match timed_lock_failed k3 with
                      | None => Fault
                      | Some k4 => Done res k4
                      end
                    else timed_lock_loop env' crt timeout_timestamp k3
                end
            end
        end
  end.

(** [mutex::timed_lock].  Modelled from the spec: the types of the clock
    are declared outside the files at hand; the deadline is
    [clock.now () + duration]. *)
Definition timed_lock (env : list wakeup) (timeout : Z) (crt : tid)
    (k : kernel) : outcome result_t :=
  if in_handler_mode k then Done EPERM k
  else if locked k then Done EPERM k
  else if negb (recoverable_ (mx k)) then Done ENOTRECOVERABLE k
  else
    match _try_lock crt k with
    | None => Fault
    | Some (res, k1) =>
        if decide (res ≠ EWOULDBLOCK) then Done res k1
        else timed_lock_loop env crt (steady_now k1 + timeout) k1
    end.

(** ** Priority ceiling, consistency, reset *)

(** [mutex::prio_ceiling (void) const]; the assertion aborts in handler
    mode. *)
Definition prio_ceiling (k : kernel) : option priority_t :=
  if in_handler_mode k then None else Some (prio_ceiling_ (mx k)).

(** [mutex::prio_ceiling (prio_ceiling, old_prio_ceiling)].  The
    out-parameter is [None] for [nullptr] and else the value of the
    variable it points to; its value at the end is returned beside the
    result. *)
Definition prio_ceiling_set (env : list wakeup) (crt : tid)
    (prio_ceiling : priority_t) (old_prio_ceiling : option priority_t)
    (k : kernel) : outcome (result_t * option priority_t) :=
  if in_handler_mode k then Done (EPERM, old_prio_ceiling) k
  else
    match lock env crt k with
    | Fault => Fault
    | Blocked k1 => Blocked k1
    | Done res k1 =>
        if decide (res ≠ ok) then Done (res, old_prio_ceiling) k1
        else
          let old :=
            match old_prio_ceiling with
            | Some _ => Some (prio_ceiling_ (mx k1))
            | None => None
            end in
          let k2 := upd_mx (with_prio_ceiling prio_ceiling) k1 in
          match unlock crt k2 with
          | None => Fault
          | Some (_, k3) => Done (ok, old) k3
          end
    end.

(** [mutex::consistent]. *)
Definition consistent (k : kernel) : result_t * kernel :=
  if in_handler_mode k then (EPERM, k)
  else if negb (bool_decide (robustness_ (mx k) = robust)) then (EINVAL, k)
  else if consistent_ (mx k) then (EINVAL, k)
  else (ok, upd_mx (with_consistent true) k).

(** [mutex::reset]. *)
Definition reset (k : kernel) : option (result_t * kernel) :=
  if in_handler_mode k then Some (EPERM, k)
  else k' ← _init k; Some (ok, k').

(** ** States of a call in progress *)

(** The thread [crt] owns the mutex of the default type, is live and is
    not interrupted: the state in which it relocks. *)
Definition relocking_default (crt : tid) (k : kernel) : Prop :=
  owner_ (mx k) = Some crt /\
  type_ (mx k) = _default /\
  exists th, threads k !! crt = Some th /\ interrupted_ th = false.

(** A wake-up that leaves such a state as it is. *)
Definition keeps_relocking_default (crt : tid) (w : wakeup) : Prop :=
  forall k, relocking_default crt k -> relocking_default crt (w k).

(** The thread [o] holds the mutex once and has [a] acquired mutexes; the
    thread [t], whose object is [tth], is after the mutex; [l] is the
    waiting list. *)
Definition held_against (o t : tid) (tth : thread) (a : Z) (l : list tid)
    (k : kernel) : Prop :=
  in_handler_mode k = false /\
  protocol_ (mx k) <> protect /\
  owner_ (mx k) = Some o /\
  count_ (mx k) = 1 /\
  list_ (mx k) = l /\
  threads k !! t = Some tth /\
  exists oth, threads k !! o = Some oth /\ acquired_mutexes_ oth = a.

(** What the calls keep of a mutex once it is constructed: it stays
    recoverable and consistent, a mutex without owner has the count 0
    and no boost, and the count stays between 0 and the cap (1 when the
    cap is below 1). *)
Definition mutex_inv (k : kernel) : Prop :=
  recoverable_ (mx k) = true /\
  consistent_ (mx k) = true /\
  (owner_ (mx k) = None ->
   count_ (mx k) = 0 /\ boosted_prio_ (mx k) = priority.none) /\
  0 <= count_ (mx k) <= Z.max 1 (max_count_ (mx k)).

(** The attributes of the mutex and the execution context are the
    same in [k] and [k']. *)
Definition same_attributes (k k' : kernel) : Prop :=
  type_ (mx k') = type_ (mx k) /\
  protocol_ (mx k') = protocol_ (mx k) /\
  robustness_ (mx k') = robustness_ (mx k) /\
  max_count_ (mx k') = max_count_ (mx k) /\
  prio_ceiling_ (mx k') = prio_ceiling_ (mx k) /\
  in_handler_mode k' = in_handler_mode k /\
  locked k' = locked k.

(** ** Sequences of calls *)

(** The calls of the interface that do not suspend the caller. *)
Inductive call : Type :=
| call_try_lock (t : tid)
| call_unlock (t : tid)
| call_consistent
| call_reset.

Definition run_call (c : call) (k : kernel) : option (result_t * kernel) :=
  match c with
  | call_try_lock t => try_lock t k
  | call_unlock t => unlock t k
  | call_consistent => Some (consistent k)
  | call_reset => reset k
  end.

(** The calls are made one after the other; the results are collected. *)
Fixpoint run_calls (cs : list call) (k : kernel)
  : option (list result_t * kernel) :=
  match cs with
  | [] => Some ([], k)
  | c :: rest =>
      match run_call c k with
      | None => None
      | Some (res, k1) =>
          match run_calls rest k1 with
          | None => None
          | Some (ress, k2) => Some (res :: ress, k2)
          end
      end
  end.

(** The wake-up of a waiter in which the thread [o] has called
    [unlock ()] and nothing else has happened. *)
Definition unlock_by (o : tid) : wakeup := fun k =>
  match unlock o k with
  | Some (_, k') => k'
  | None => k
  end.

(** The clock of the kernel set to [now], and the interruption flag of
    the thread [t] set, as the rest of the system may do while a
    thread is suspended. *)
Definition set_clock (now : Z) (k : kernel) : kernel :=
  mk_kernel (threads k) (mx k) now (steady_list k)
    (in_handler_mode k) (locked k).

Definition set_interrupted (t : tid) (k : kernel) : kernel :=
  match threads k !! t with
  | Some th =>
      store_thread t
        (mk_thread (prio_ th) true (acquired_mutexes_ th) (sched_state_ th))
        k
  | None => k
  end.

End Operations.

(** ** Thread stacks (os-thread.h) *)

(** [thread::stack]: the bottom address, in bytes, and the size. *)
Record thread_stack : Type := mk_thread_stack {
  bottom_address_ : Z;
  size_bytes_ : Z
}.

(** The members of [thread::attributes] that describe the stack; the
    address 0 is [nullptr]. *)
Record thread_attributes : Type := mk_thread_attributes {
  th_stack_address : Z;
  th_stack_size_bytes : Z
}.

(** The stack the constructor of [thread_allocated] hands to
    [_construct]: the one of the attributes
    ([_construct (function, args, attr, nullptr, 0)]), or one it has
    allocated, of so many elements of the allocator and so many
    bytes. *)
Inductive stack_choice : Type :=
| attributes_stack
| allocated_stack (elements : Z) (size_bytes : Z).

Section Stacks.
Context `{Platform}.

(** [sizeof (stack::element_t)]. *)
Variable sizeof_element : Z.

(** [sizeof (typename Allocator::value_type)], which is
    [stack::allocation_element_t] for the default allocator and for
    [thread_static]. *)
Variable sizeof_value_type : Z.

(** [thread::stack::clear] and [thread::stack::set]. *)
Definition stack_clear (s : thread_stack) : thread_stack :=
  mk_thread_stack 0 0.

Definition stack_set (address size_bytes : Z) (s : thread_stack)
  : thread_stack :=
  mk_thread_stack address size_bytes.

(** [thread::stack::bottom], [thread::stack::top] (the pointer moves by
    whole elements) and [thread::stack::size]. *)
Definition stack_bottom (s : thread_stack) : Z := bottom_address_ s.

Definition stack_top (s : thread_stack) : Z :=
  bottom_address_ s + (size_bytes_ s / sizeof_element) * sizeof_element.

Definition stack_size (s : thread_stack) : Z := size_bytes_ s.

(** [(size_bytes + sizeof (T) - 1) / sizeof (T)] in [std::size_t], the
    number of elements for a stack of [size_bytes] bytes. *)
Definition stack_elements (size_bytes : Z) : Z :=
  size_wrap (size_wrap (size_bytes + sizeof_value_type) - 1)
  / sizeof_value_type.

(** The constructor of [thread_allocated], as far as the stack goes;
    [min_size] and [default_size] are [stack::min_size ()] and
    [stack::default_size ()]. *)
Definition thread_allocated_stack (min_size default_size : Z)
    (attr : thread_attributes) : stack_choice :=
  if negb (th_stack_address attr =? 0)
     && (th_stack_size_bytes attr >? min_size) then
    attributes_stack
  else
    let allocated_stack_size_elements_ :=
      if th_stack_size_bytes attr >? min_size then
        stack_elements (th_stack_size_bytes attr)
      else stack_elements default_size in
    allocated_stack allocated_stack_size_elements_
      (size_wrap (allocated_stack_size_elements_ * sizeof_value_type)).

(** [thread_static<N>]: the number of elements of the array [stack_]
    and the size handed to [_construct]. *)
Definition thread_static_stack (N : Z) : Z * Z := (stack_elements N, N).

End Stacks.

(** ** Scenarios

    Three threads of the priorities 10 (low), 20 (mid) and 30 (high) on a
    32-bit port, and the mutexes constructed for them. *)

Module Scenario.
#[local] Existing Instance cortex_m.

Definition T_low : tid := 1%nat.
Definition T_mid : tid := 2%nat.
Definition T_high : tid := 3%nat.

Definition a_thread (p : priority_t) : thread := mk_thread p false 0 running.

Definition three_threads : gmap tid thread :=
  <[T_low := a_thread 10]>
    (<[T_mid := a_thread 20]> (<[T_high := a_thread 30]> ∅)).

(** The kernel a mutex is constructed in: thread mode, scheduler not
    locked, the clock at 0. *)
Definition boot (attr : attributes) : kernel :=
  mk_kernel three_threads (mutex_members attr) 0 [] false false.

Definition constructed (attr : attributes) : kernel :=
  match mutex_ctor attr (boot attr) with
  | Some (inr k) => k
  | _ => boot attr
  end.

(** The kernel after [crt] has called [lock ()] without being
    suspended. *)
Definition locked_by (crt : tid) (k : kernel) : kernel :=
  match lock [] crt k with
  | Done _ k' => k'
  | _ => k
  end.

Definition attr_normal : attributes :=
  mk_attributes normal none stalled priority.none 1.
Definition attr_default : attributes :=
  mk_attributes _default none stalled priority.none 7.
Definition attr_errorcheck : attributes :=
  mk_attributes errorcheck none stalled priority.none 1.
Definition attr_recursive (max_count : Z) : attributes :=
  mk_attributes recursive none stalled priority.none max_count.
Definition attr_inherit : attributes :=
  mk_attributes normal inherit stalled priority.none 1.
Definition attr_protect (ceiling : priority_t) : attributes :=
  mk_attributes normal protect stalled ceiling 1.

(** The clock reaches [now]; its callback unlinks the nodes of [t]
    and resumes it, and [t] runs again. *)
Definition clock_wakeup (now : Z) (t : tid) : wakeup := fun k =>
  let k1 := _unlink_node_timeout t k in
  let k2 := mk_kernel (threads k1) (mx k1) now (steady_list k1)
              (in_handler_mode k1) (locked k1) in
  default k2 (set_sched_state running t k2).

(** The thread [t] runs again with nothing else changed. *)
Definition spurious_wakeup (t : tid) : wakeup := fun k =>
  default k (set_sched_state running t k).

(** The kernel after [crt] has called [lock ()] and is suspended in the
    waiting list. *)
Definition waiting_in_lock (crt : tid) (k : kernel) : kernel :=
  match lock [] crt k with
  | Blocked k' => k'
  | _ => k
  end.

(** A mutex of the protect protocol with the ceiling 20, unowned. *)
Definition protect_20 : kernel := constructed (attr_protect 20).

(** A normal mutex held by the low thread, the high thread waiting. *)
Definition held_and_awaited : kernel :=
  waiting_in_lock T_high (locked_by T_low (constructed attr_normal)).

(** A mutex of the inherit protocol held by the low thread. *)
Definition inherit_held_by_low : kernel :=
  locked_by T_low (constructed attr_inherit).

(** The same after the high thread has called [timed_lock (5)], was
    woken by the clock at 5 and has unlinked its nodes. *)
Definition inherit_high_woken : kernel :=
  match timed_lock [] 5 T_high inherit_held_by_low with
  | Blocked k => _unlink_node_timeout T_high (clock_wakeup 5 T_high k)
  | _ => inherit_held_by_low
  end.


(** A recursive mutex constructed with [mx_max_count = 0], locked once
    by the low thread. *)
Definition recursive_cap_0_locked : kernel :=
  locked_by T_low (constructed (attr_recursive 0)).

(** A recursive mutex with the cap 3 locked twice by the low thread. *)
Definition recursive_locked_twice : kernel :=
  locked_by T_low (locked_by T_low (constructed (attr_recursive 3))).

(** The same locked a third time: the count is at the cap. *)
Definition recursive_at_cap : kernel :=
  locked_by T_low recursive_locked_twice.

(** The same after the whole call [timed_lock (5)] of the low thread,
    the owner, woken by the clock at 5. *)
Definition recursive_at_cap_timed_out : kernel :=
  match timed_lock [clock_wakeup 5 T_low] 5 T_low recursive_at_cap with
  | Done _ k => k
  | _ => recursive_at_cap
  end.

(** An errorcheck mutex held by the low thread. *)
Definition errorcheck_held_by_low : kernel :=
  locked_by T_low (constructed attr_errorcheck).

(** A mutex of the default type held by the low thread. *)
Definition default_held_by_low : kernel :=
  locked_by T_low (constructed attr_default).

(** The inherit mutex held by the low thread after the attempt of the
    high thread. *)
Definition inherit_contended : kernel :=
  match _try_lock T_high inherit_held_by_low with
  | Some (_, k) => k
  | None => inherit_held_by_low
  end.

(** A recursive mutex with the cap 5 locked once by the low thread. *)
Definition recursive_cap_5_locked : kernel :=
  locked_by T_low (constructed (attr_recursive 5)).

(** An inherit mutex held by the mid thread (20), with the low thread
    (10) waiting after the high thread (30) has left the waiting list:
    the boost is still the 30 of the high thread. *)
Definition inherit_high_left : kernel :=
  _unlink_node T_high
    (waiting_in_lock T_high
       (waiting_in_lock T_low (locked_by T_mid (constructed attr_inherit)))).

(** Calls on a recursive mutex of the cap 2. *)
Definition some_calls : list call :=
  [call_try_lock T_low; call_try_lock T_low; call_try_lock T_low;
   call_unlock T_low; call_reset; call_consistent; call_try_lock T_high].

Definition after_some_calls : kernel :=
  match run_calls some_calls (constructed (attr_recursive 2)) with
  | Some (_, k) => k
  | None => constructed (attr_recursive 2)
  end.

(** A kernel in handler mode. *)
Definition in_handler : kernel :=
  mk_kernel three_threads (mutex_members attr_normal) 0 [] true false.

(** A kernel in thread mode with the scheduler locked. *)
Definition scheduler_locked : kernel :=
  mk_kernel three_threads (mutex_members attr_normal) 0 [] false true.

(** Attributes of a thread with a stack of 100 bytes given. *)
Definition small_stack_attr : thread_attributes :=
  mk_thread_attributes 536870912 100.
End Scenario.

(** * Properties *)

Section Properties.
Context `{Platform}.

(** ** The accessors under the updates *)

Lemma mutex_eta (m : mutex) :
  mk_mutex (type_ m) (protocol_ m) (robustness_ m) (max_count_ m)
    (prio_ceiling_ m) (owner_ m) (count_ m) (owner_prio_ m) (boosted_prio_ m)
    (consistent_ m) (recoverable_ m) (list_ m) = m.
Proof. by destruct m. Qed.

Lemma kernel_eta (k : kernel) :
  mk_kernel (threads k) (mx k) (steady_now k) (steady_list k)
    (in_handler_mode k) (locked k) = k.
Proof. by destruct k. Qed.

Lemma store_thread_id (t : tid) (th : thread) (k : kernel) :
  threads k !! t = Some th -> store_thread t th k = k.
Proof.
  intros Hth. unfold store_thread, with_threads.
  rewrite insert_id by done. apply kernel_eta.
Qed.

Lemma thread_eta (th : thread) :
  mk_thread (prio_ th) (interrupted_ th) (acquired_mutexes_ th)
    (sched_state_ th) = th.
Proof. by destruct th. Qed.

Lemma size_wrap_incr_decr (a : Z) :
  0 <= a < 2 ^ Z.of_N size_t_bits ->
  size_wrap (size_wrap (a + 1) - 1) = a.
Proof.
  intros Ha. unfold size_wrap.
  set (M := 2 ^ Z.of_N size_t_bits) in *.
  destruct (decide (a + 1 = M)) as [Heq|Hne].
  - rewrite Heq, Z.mod_same by lia. simpl.
    replace (0 - 1) with (a + (-1) * M) by lia.
    rewrite Z.mod_add by lia. apply Z.mod_small. lia.
  - rewrite (Z.mod_small (a + 1)) by lia.
    replace (a + 1 - 1) with a by lia. apply Z.mod_small. lia.
Qed.

(** ** Release *)

(** C9. For a recursive mutex owned by the caller with a count above 1,
    [unlock] in thread mode returns [ok] and only takes one from the
    count: the owner, the waiting list, the boost, the saved priority, the
    thread store (so the priority and the acquired-mutexes counter of the
    owner, and the state of every waiter) and the rest of the kernel keep
    their values. *)
Theorem unlock_recursive_inner (crt : tid) (k : kernel) :
  in_handler_mode k = false ->
  owner_ (mx k) = Some crt ->
  type_ (mx k) = recursive ->
  count_ (mx k) > 1 ->
  exists k',
    unlock crt k = Some (ok, k') /\
    k' = upd_mx (with_count (count_ (mx k) - 1)) k /\
    count_ (mx k') = count_ (mx k) - 1 /\
    owner_ (mx k') = Some crt /\
    list_ (mx k') = list_ (mx k) /\
    boosted_prio_ (mx k') = boosted_prio_ (mx k) /\
    owner_prio_ (mx k') = owner_prio_ (mx k) /\
    threads k' = threads k /\
    steady_list k' = steady_list k.
Proof.
  intros Hmode Hown Hty Hcnt.
  exists (upd_mx (with_count (count_ (mx k) - 1)) k).
  split; [|by rewrite <- Hown].
  unfold unlock. rewrite Hmode, Hown, Hty.
  rewrite decide_True by done.
  rewrite bool_decide_eq_true_2 by done.
  destruct (Z.gtb_spec (count_ (mx k)) 1) as [_|Hle]; [done|lia].
Qed.

(** C5. In thread mode, [unlock] by a thread that is not the owner (the
    mutex may as well have no owner) returns [EPERM] when the type is
    errorcheck or recursive or the mutex is robust, and [ENOTRECOVERABLE]
    otherwise; the kernel, and so the owner, the count and the waiting
    list of the mutex, is the one before the call. *)
Theorem unlock_not_owner (crt : tid) (k : kernel) :
  in_handler_mode k = false ->
  owner_ (mx k) <> Some crt ->
  (type_ (mx k) = errorcheck \/ type_ (mx k) = recursive
   \/ robustness_ (mx k) = robust ->
   unlock crt k = Some (EPERM, k)) /\
  (type_ (mx k) <> errorcheck -> type_ (mx k) <> recursive ->
   robustness_ (mx k) <> robust ->
   unlock crt k = Some (ENOTRECOVERABLE, k)).
Proof.
  intros Hmode Hown. unfold unlock. rewrite Hmode.
  rewrite decide_False by done. split.
  - intros [Hty|[Hty|Hrob]].
    + by rewrite (bool_decide_eq_true_2 _ Hty).
    + rewrite (bool_decide_eq_true_2 (type_ (mx k) = recursive)) by done.
      by rewrite orb_true_r.
    + rewrite (bool_decide_eq_true_2 (robustness_ (mx k) = robust)) by done.
      by rewrite orb_true_r.
  - intros Hec Hrec Hrob.
    by rewrite !bool_decide_eq_false_2 by done.
Qed.

(** ** Relock *)

Lemma _try_lock_owner (crt : tid) (k : kernel) :
  owner_ (mx k) = Some crt ->
  _try_lock crt k =
  match type_ (mx k) with
  | recursive =>
      if count_ (mx k) >=? max_count_ (mx k) then Some (EAGAIN, k)
      else Some (ok, upd_mx (with_count (count_ (mx k) + 1)) k)
  | errorcheck => Some (EDEADLK, k)
  | normal | _default => Some (EWOULDBLOCK, k)
  end.
Proof.
  intros Hown. unfold _try_lock. rewrite Hown.
  rewrite decide_True by done. by destruct (type_ (mx k)).
Qed.

Lemma try_lock_thread_mode (crt : tid) (k : kernel) :
  in_handler_mode k = false -> recoverable_ (mx k) = true ->
  try_lock crt k = _try_lock crt k.
Proof. intros Hmode Hrec. unfold try_lock. by rewrite Hmode, Hrec. Qed.

(** C4, as the code has it. For a mutex owned by the calling thread,
    [_try_lock] (and [try_lock], in thread mode on a recoverable mutex)
    returns: for the recursive type, [EAGAIN] with the kernel unchanged
    when the count has reached [max_count_] or is above it, and else [ok]
    with one more in the count and nothing else changed; for the
    errorcheck type, [EDEADLK] with the kernel unchanged; for the normal
    type, [EWOULDBLOCK] with the kernel unchanged. *)
Theorem relock_by_owner (crt : tid) (k : kernel) :
  owner_ (mx k) = Some crt ->
  (type_ (mx k) = recursive -> count_ (mx k) >= max_count_ (mx k) ->
   _try_lock crt k = Some (EAGAIN, k)) /\
  (type_ (mx k) = recursive -> count_ (mx k) < max_count_ (mx k) ->
   _try_lock crt k = Some (ok, upd_mx (with_count (count_ (mx k) + 1)) k)) /\
  (type_ (mx k) = errorcheck -> _try_lock crt k = Some (EDEADLK, k)) /\
  (type_ (mx k) = normal -> _try_lock crt k = Some (EWOULDBLOCK, k)) /\
  (in_handler_mode k = false -> recoverable_ (mx k) = true ->
   try_lock crt k = _try_lock crt k).
Proof.
  intros Hown. rewrite (_try_lock_owner crt k Hown).
  repeat split.
  - intros -> Hge.
    destruct (Z.geb_spec (count_ (mx k)) (max_count_ (mx k))); [done|lia].
  - intros -> Hlt.
    destruct (Z.geb_spec (count_ (mx k)) (max_count_ (mx k))); [lia|done].
  - by intros ->.
  - by intros ->.
  - intros Hmode Hrec. rewrite <- (_try_lock_owner crt k Hown).
    by apply try_lock_thread_mode.
Qed.

(** ** The first lock *)

Lemma _try_lock_unowned (crt : tid) (th : thread) (k : kernel) :
  owner_ (mx k) = None ->
  threads k !! crt = Some th ->
  _try_lock crt k = first_lock_protocol crt (owned_by crt th k).
Proof.
  intros Hown Hth. unfold _try_lock, incr_acquired. rewrite Hown.
  simpl. by rewrite Hth.
Qed.

Lemma _try_lock_protect_over_ceiling (crt : tid) (th : thread) (k : kernel) :
  protocol_ (mx k) = protect ->
  owner_ (mx k) = None ->
  threads k !! crt = Some th ->
  prio_ th > prio_ceiling_ (mx k) ->
  _try_lock crt k = Some (EINVAL, owned_by crt th k).
Proof.
  intros Hproto Hown Hth Hprio.
  rewrite (_try_lock_unowned crt th k Hown Hth).
  unfold first_lock_protocol, thread_priority. simpl.
  rewrite Hproto, lookup_insert_eq. simpl.
  destruct (Z.gtb_spec (prio_ th) (prio_ceiling_ (mx k))); [done|lia].
Qed.

Lemma lock_fast_path (env : list wakeup) (crt : tid) (k k1 : kernel)
    (res : result_t) :
  in_handler_mode k = false -> locked k = false ->
  recoverable_ (mx k) = true ->
  _try_lock crt k = Some (res, k1) -> res <> EWOULDBLOCK ->
  lock env crt k = Done res k1.
Proof.
  intros Hmode Hlck Hrec Htry Hres. unfold lock.
  rewrite Hmode, Hlck, Hrec, Htry. simpl. by rewrite decide_True.
Qed.

(** C1, what the code does. On an unowned mutex of the protect protocol,
    the attempt of a thread whose priority is above the ceiling returns
    [EINVAL] from [_try_lock], [try_lock] and [lock], and is not backed
    out: the mutex is left owned by the thread with the count 1, and the
    acquired-mutexes counter of the thread is one higher. *)
Theorem protect_over_ceiling_not_backed_out (env : list wakeup) (crt : tid)
    (th : thread) (k : kernel) :
  in_handler_mode k = false -> locked k = false ->
  recoverable_ (mx k) = true ->
  protocol_ (mx k) = protect ->
  owner_ (mx k) = None ->
  threads k !! crt = Some th ->
  prio_ th > prio_ceiling_ (mx k) ->
  exists k',
    _try_lock crt k = Some (EINVAL, k') /\
    try_lock crt k = Some (EINVAL, k') /\
    lock env crt k = Done EINVAL k' /\
    owner_ (mx k') = Some crt /\
    count_ (mx k') = 1 /\
    (acquired_mutexes_ <$> threads k' !! crt)
      = Some (size_wrap (acquired_mutexes_ th + 1)).
Proof.
  intros Hmode Hlck Hrec Hproto Hown Hth Hprio.
  pose proof (_try_lock_protect_over_ceiling crt th k Hproto Hown Hth Hprio)
    as Htry.
  exists (owned_by crt th k). repeat split.
  - done.
  - by rewrite try_lock_thread_mode.
  - by apply lock_fast_path.
  - simpl. by rewrite lookup_insert_eq.
Qed.

(** ** Round trip *)

Ltac unlock_last_step :=
  unfold unlock; simpl; rewrite decide_True by done;
  rewrite andb_false_r; simpl.

(** C8. On an unowned mutex with no waiter and no boost, for a calling
    thread in thread mode with the scheduler not locked (its priority not
    above the ceiling when the protocol is protect), [lock] returns [ok]
    with the thread as the owner and the following [unlock] returns [ok];
    afterwards the mutex has no owner, the count 0, no boost and no
    waiter, the thread store is the one before [lock] (the priority and
    the acquired-mutexes counter of the thread are back), and the kernel
    differs from the one before [lock] at most in the count, set to 0,
    and in the saved owner priority. *)
Theorem lock_unlock_round_trip (env : list wakeup) (crt : tid) (th : thread)
    (k : kernel) :
  in_handler_mode k = false -> locked k = false ->
  recoverable_ (mx k) = true ->
  owner_ (mx k) = None ->
  list_ (mx k) = [] ->
  boosted_prio_ (mx k) = priority.none ->
  threads k !! crt = Some th ->
  0 <= prio_ th ->
  0 <= acquired_mutexes_ th < 2 ^ Z.of_N size_t_bits ->
  (protocol_ (mx k) = protect -> prio_ th <= prio_ceiling_ (mx k)) ->
  exists k1 k2,
    lock env crt k = Done ok k1 /\
    owner_ (mx k1) = Some crt /\
    unlock crt k1 = Some (ok, k2) /\
    owner_ (mx k2) = None /\
    count_ (mx k2) = 0 /\
    boosted_prio_ (mx k2) = priority.none /\
    list_ (mx k2) = [] /\
    threads k2 !! crt = Some th /\
    threads k2 = threads k /\
    k2 = upd_mx (with_count 0)
           (upd_mx (with_owner_prio (owner_prio_ (mx k2))) k).
Proof.
  intros Hmode Hlck Hrec Hown Hlist Hboost Hth Hprio Hacq Hceil.
  assert (Hid : <[crt := mk_thread (prio_ th) (interrupted_ th)
                           (acquired_mutexes_ th) (sched_state_ th)]>
                  (threads k) = threads k).
  { rewrite thread_eta. by apply insert_id. }
  destruct k as [ts m now sl hm lk]. destruct m. simpl in *. subst.
  unfold lock. simpl. unfold _try_lock, incr_acquired. simpl.
  rewrite Hth. simpl.
  unfold first_lock_protocol, thread_priority. simpl.
  rewrite lookup_insert_eq. simpl.
  destruct protocol_0; simpl.
  - eexists _, _. split; [reflexivity|]. split; [done|].
    unlock_last_step. unfold decr_acquired. simpl.
    rewrite lookup_insert_eq. simpl.
    unfold store_thread, upd_mx, with_threads. simpl.
    rewrite insert_insert_eq, size_wrap_incr_decr, Hid by done.
    split; [reflexivity|]. by simpl.
  - eexists _, _. split; [reflexivity|]. split; [done|].
    unlock_last_step. unfold decr_acquired. simpl.
    rewrite lookup_insert_eq. simpl.
    unfold store_thread, upd_mx, with_threads. simpl.
    rewrite insert_insert_eq, size_wrap_incr_decr, Hid by done.
    split; [reflexivity|]. by simpl.
  - specialize (Hceil eq_refl).
    destruct (Z.gtb_spec (prio_ th) prio_ceiling_0) as [?|_]; [lia|].
    simpl.
    destruct (Z.gtb_spec prio_ceiling_0 (prio_ th)) as [Hgt|Hle].
    + unfold thread_set_priority. simpl. rewrite lookup_insert_eq. simpl.
      eexists _, _. split; [reflexivity|]. split; [done|].
      unfold unlock. simpl. rewrite decide_True by done.
      rewrite andb_false_r.
      rewrite decide_True by (unfold priority.none; lia).
      unfold thread_set_priority. simpl. rewrite lookup_insert_eq. simpl.
      unfold decr_acquired. simpl. rewrite lookup_insert_eq. simpl.
      unfold store_thread, upd_mx, with_threads. simpl.
      rewrite !insert_insert_eq, size_wrap_incr_decr, Hid by done.
      split; [reflexivity|]. by simpl.
    + eexists _, _. split; [reflexivity|]. split; [done|].
      unlock_last_step. unfold decr_acquired. simpl.
      rewrite lookup_insert_eq. simpl.
      unfold store_thread, upd_mx, with_threads. simpl.
      rewrite insert_insert_eq, size_wrap_incr_decr, Hid by done.
      split; [reflexivity|]. by simpl.
Qed.

(** ** Reset *)

Lemma resume_list_ready (l : list tid) :
  forall k : kernel,
    (forall t, t ∈ l -> is_Some (threads k !! t)) ->
    exists k',
      resume_list l k = Some k' /\
      mx k' = mx k /\
      (forall t, is_Some (threads k !! t) -> is_Some (threads k' !! t)) /\
      (forall t, t ∈ l -> sched_state_ <$> threads k' !! t = Some ready) /\
      (forall t, sched_state_ <$> threads k !! t = Some ready ->
                 sched_state_ <$> threads k' !! t = Some ready).
Proof.
  induction l as [|t rest IH]; intros k Hall.
  - exists k. simpl. repeat split; try done.
    intros t Ht. by apply elem_of_nil in Ht.
  - destruct (Hall t) as [th Hth]; [by left|].
    simpl. unfold resume, set_sched_state. rewrite Hth. simpl.
    set (k1 := store_thread t _ k).
    destruct (IH k1) as (k' & Hres & Hmx & Hsome & Hrest & Hkeep).
    { intros u Hu. simpl.
      destruct (decide (t = u)) as [->|Hne].
      - rewrite lookup_insert_eq. by eexists.
      - rewrite lookup_insert_ne by done. apply Hall. by right. }
    exists k'. split; [done|]. split; [done|].
    assert (Hk1 : forall u, sched_state_ <$> threads k !! u = Some ready ->
                            sched_state_ <$> threads k1 !! u = Some ready).
    { intros u Hu. simpl.
      destruct (decide (t = u)) as [->|Hne].
      - by rewrite lookup_insert_eq.
      - by rewrite lookup_insert_ne. }
    repeat split.
    + intros u Hu. apply Hsome. simpl.
      destruct (decide (t = u)) as [->|Hne].
      * rewrite lookup_insert_eq. by eexists.
      * by rewrite lookup_insert_ne.
    + intros u Hu. apply elem_of_cons in Hu as [->|Hu].
      * apply Hkeep. simpl. by rewrite lookup_insert_eq.
      * by apply Hrest.
    + intros u Hu. by apply Hkeep, Hk1.
Qed.

(** C2, what the code does. In thread mode, with every waiter a live
    thread, [reset] returns [ok] with the count 0, the mutex consistent
    and recoverable, the waiting list empty and every former waiter
    resumed (ready); the owner is not cleared: [owner_] keeps the value
    it had before the call, and so does the boost. *)
Theorem reset_keeps_owner (k : kernel) :
  in_handler_mode k = false ->
  (forall t, t ∈ list_ (mx k) -> is_Some (threads k !! t)) ->
  exists k',
    reset k = Some (ok, k') /\
    count_ (mx k') = 0 /\
    consistent_ (mx k') = true /\
    recoverable_ (mx k') = true /\
    list_ (mx k') = [] /\
    (forall t, t ∈ list_ (mx k) ->
               sched_state_ <$> threads k' !! t = Some ready) /\
    owner_ (mx k') = owner_ (mx k) /\
    boosted_prio_ (mx k') = boosted_prio_ (mx k).
Proof.
  intros Hmode Hall. unfold reset, _init, resume_all. rewrite Hmode.
  simpl.
  destruct (resume_list_ready (list_ (mx k))
              (upd_mx (with_list [])
                 (upd_mx (with_recoverable true)
                    (upd_mx (with_consistent true)
                       (upd_mx (with_count 0) k)))))
    as (k' & Hres & Hmx & _ & Hready & _); [done|].
  exists k'. simpl in Hres. rewrite Hres. simpl.
  rewrite Hmx. by repeat split.
Qed.

(** ** The exit of a timed lock *)

(** C3, what the code does when the departing thread was the last
    waiter. With an empty waiting list the exit of [timed_lock] on
    [EINTR] or [ETIMEDOUT] changes nothing, whatever the boost: the
    priority of the owner is not set back to the saved one and
    [boosted_prio_] keeps its value. *)
Theorem timed_lock_failed_last_waiter (k : kernel) :
  list_ (mx k) = [] ->
  timed_lock_failed k = Some k.
Proof.
  intros Hlist. unfold timed_lock_failed. rewrite Hlist. simpl.
  by case_decide.
Qed.

(** With waiters left whose highest priority [M] is not [none], the exit
    sets the boost and the priority of the owner to [M]. *)
Lemma timed_lock_failed_reboost (k : kernel) (owner : tid) (oth : thread)
    (M : priority_t) :
  boosted_prio_ (mx k) <> priority.none ->
  owner_ (mx k) = Some owner ->
  threads k !! owner = Some oth ->
  waiting_max_prio (threads k) (list_ (mx k)) priority.none = Some M ->
  M <> priority.none ->
  exists k',
    timed_lock_failed k = Some k' /\
    boosted_prio_ (mx k') = M /\
    thread_priority owner k' = Some M.
Proof.
  intros Hboost Hown Hoth Hmax HM. unfold timed_lock_failed.
  rewrite decide_True by done. rewrite Hmax. simpl.
  rewrite decide_True by done. simpl. rewrite Hown. simpl.
  unfold thread_set_priority. simpl. rewrite Hoth. simpl.
  eexists. split; [reflexivity|]. split; [done|].
  unfold thread_priority. simpl. by rewrite lookup_insert_eq.
Qed.

(** ** The ceiling setter *)

(** C6, what the code does. The setter of the ceiling takes the mutex
    with [lock ()], protocol included: on an unowned mutex of the protect
    protocol, for a calling thread whose priority is above the ceiling,
    it returns [EINVAL], the out-parameter is not written and the
    ceiling is not changed. *)
Theorem prio_ceiling_set_adheres_to_protect (env : list wakeup) (crt : tid)
    (th : thread) (new_ceiling : priority_t) (old : option priority_t)
    (k : kernel) :
  in_handler_mode k = false -> locked k = false ->
  recoverable_ (mx k) = true ->
  protocol_ (mx k) = protect ->
  owner_ (mx k) = None ->
  threads k !! crt = Some th ->
  prio_ th > prio_ceiling_ (mx k) ->
  exists k',
    prio_ceiling_set env crt new_ceiling old k = Done (EINVAL, old) k' /\
    prio_ceiling_ (mx k') = prio_ceiling_ (mx k) /\
    owner_ (mx k') = Some crt.
Proof.
  intros Hmode Hlck Hrec Hproto Hown Hth Hprio.
  exists (owned_by crt th k). unfold prio_ceiling_set. rewrite Hmode.
  rewrite (lock_fast_path env crt k (owned_by crt th k) EINVAL); try done.
  by apply _try_lock_protect_over_ceiling.
Qed.

(** On the way the setter takes the mutex, a calling thread below the
    ceiling runs at the ceiling while it holds the mutex. *)
Lemma lock_protect_boosts (env : list wakeup) (crt : tid) (th : thread)
    (k : kernel) :
  in_handler_mode k = false -> locked k = false ->
  recoverable_ (mx k) = true ->
  protocol_ (mx k) = protect ->
  owner_ (mx k) = None ->
  threads k !! crt = Some th ->
  prio_ th < prio_ceiling_ (mx k) ->
  exists k1,
    lock env crt k = Done ok k1 /\
    boosted_prio_ (mx k1) = prio_ceiling_ (mx k) /\
    thread_priority crt k1 = Some (prio_ceiling_ (mx k)).
Proof.
  intros Hmode Hlck Hrec Hproto Hown Hth Hprio.
  assert (exists k1, _try_lock crt k = Some (ok, k1) /\
            boosted_prio_ (mx k1) = prio_ceiling_ (mx k) /\
            thread_priority crt k1 = Some (prio_ceiling_ (mx k)))
    as (k1 & Htry & Hb & Hp).
  { rewrite (_try_lock_unowned crt th k Hown Hth).
    unfold first_lock_protocol, thread_priority. simpl.
    rewrite Hproto, lookup_insert_eq. simpl.
    destruct (Z.gtb_spec (prio_ th) (prio_ceiling_ (mx k))); [lia|].
    destruct (Z.gtb_spec (prio_ceiling_ (mx k)) (prio_ th)); [|lia].
    unfold thread_set_priority. simpl. rewrite lookup_insert_eq. simpl.
    eexists. split; [reflexivity|]. simpl. by rewrite lookup_insert_eq. }
  exists k1. split; [|done]. by apply lock_fast_path.
Qed.

(** ** What [_try_lock] can return and what it leaves alone *)

Ltac try_lock_cases :=
  repeat match goal with
    | H : context [match ?x with _ => _ end] |- _ =>
        let E := fresh "E" in destruct x eqn:E; simpl in H
    | H : Some _ = Some _ |- _ => progress simplify_eq
    | H : None = Some _ |- _ => discriminate H
    | H : _ ≫= _ = Some _ |- _ =>
        apply bind_Some in H; destruct H as (? & ? & H)
    end.

Lemma _try_lock_result (crt : tid) (k k1 : kernel) (res : result_t) :
  _try_lock crt k = Some (res, k1) ->
  res = ok \/ res = EINVAL \/ res = EAGAIN \/ res = EDEADLK
  \/ res = EWOULDBLOCK.
Proof.
  unfold _try_lock, first_lock_protocol. intros Htry.
  try_lock_cases; tauto.
Qed.

Lemma _try_lock_steady_now (crt : tid) (k k1 : kernel) (res : result_t) :
  _try_lock crt k = Some (res, k1) -> steady_now k1 = steady_now k.
Proof.
  unfold _try_lock, first_lock_protocol, incr_acquired,
    thread_set_priority, thread_priority.
  intros Htry. try_lock_cases; try done.
Qed.

(** ** Timeouts *)




(** ** The default type *)

Lemma _link_node_keeps_relocking (crt : tid) (k : kernel) :
  relocking_default crt k ->
  exists k2, _link_node crt k = Some k2 /\ relocking_default crt k2.
Proof.
  intros (Hown & Hty & th & Hth & Hint).
  unfold _link_node, set_sched_state. rewrite Hth. simpl. rewrite Hth. simpl.
  eexists. split; [reflexivity|]. repeat split; try done.
  simpl. rewrite lookup_insert_eq. by eexists.
Qed.

Lemma lock_loop_relock_default (crt : tid) (env : list wakeup) :
  Forall (keeps_relocking_default crt) env ->
  forall k, relocking_default crt k ->
            exists k', lock_loop env crt k = Blocked k'.
Proof.
  induction 1 as [|w env' Hw _ IH]; intros k Hk; simpl.
  - rewrite _try_lock_owner by apply Hk.
    destruct Hk as (Hown & Hty & Hth). rewrite Hty. simpl.
    destruct (_link_node_keeps_relocking crt k) as (k2 & -> & _); [done|].
    by eexists.
  - rewrite _try_lock_owner by apply Hk.
    pose proof Hk as (Hown & Hty & Hth). rewrite Hty. simpl.
    destruct (_link_node_keeps_relocking crt k) as (k2 & -> & Hk2); [done|].
    apply Hw in Hk2.
    assert (relocking_default crt (_unlink_node crt (w k2))) as Hk3.
    { destruct Hk2 as (? & ? & ?). by repeat split. }
    pose proof Hk3 as (_ & _ & th & Hth3 & Hint).
    simpl in Hth3. rewrite Hth3, Hint. by apply IH.
Qed.

(** C10. The constructor keeps the default type as it is given and sets
    [max_count_] to 1 (in thread mode, for a mutex that is not robust).
    When the owner of a mutex of the default type tries to lock it
    again, [_try_lock] returns [EWOULDBLOCK] and changes nothing, as it
    does for the normal type; and [lock] by the owner does not return:
    whatever the number of wake-ups that leave the thread the
    uninterrupted owner, the thread is suspended in the waiting list
    again. *)
Theorem default_type_relock (attr : attributes) (k0 : kernel) (crt : tid)
    (k : kernel) (env : list wakeup) :
  (mx_type attr = _default -> mx_robustness attr <> robust ->
   in_handler_mode k0 = false ->
   exists k', mutex_ctor attr k0 = Some (inr k') /\
              type_ (mx k') = _default /\ max_count_ (mx k') = 1) /\
  (owner_ (mx k) = Some crt ->
   type_ (mx k) = _default \/ type_ (mx k) = normal ->
   _try_lock crt k = Some (EWOULDBLOCK, k)) /\
  (in_handler_mode k = false -> locked k = false ->
   recoverable_ (mx k) = true ->
   relocking_default crt k ->
   Forall (keeps_relocking_default crt) env ->
   exists k', lock env crt k = Blocked k').
Proof.
  split; [|split].
  - intros Hty Hrob Hmode. unfold mutex_ctor. simpl. rewrite Hmode.
    rewrite decide_False by done. unfold _init, resume_all. simpl.
    eexists. split; [reflexivity|]. simpl. rewrite Hty.
    split; [done|]. by rewrite decide_False.
  - intros Hown Hty. rewrite _try_lock_owner by done.
    by destruct Hty as [-> | ->].
  - intros Hmode Hlck Hrec Hk Henv. unfold lock.
    rewrite Hmode, Hlck, Hrec. simpl.
    rewrite _try_lock_owner by apply Hk.
    pose proof Hk as (_ & -> & _). simpl.
    by apply lock_loop_relock_default.
Qed.

Lemma spurious_wakeup_keeps_relocking (t : tid) :
  keeps_relocking_default t (Scenario.spurious_wakeup t).
Proof.
  intros k (Hown & Hty & th & Hth & Hint).
  unfold Scenario.spurious_wakeup, set_sched_state. rewrite Hth. simpl.
  repeat split; try done.
  simpl. rewrite lookup_insert_eq. by eexists.
Qed.

(** ** Ownership under [_try_lock] *)

(** X1. [_try_lock] never takes the mutex away from its owner: a success
    leaves the caller as the owner, an owner stays the owner whatever
    the result, and against another owner the caller gets [EWOULDBLOCK]
    with the count untouched and its own acquired-mutexes counter
    untouched. *)
Theorem _try_lock_ownership (t : tid) (k k' : kernel) (res : result_t) :
  _try_lock t k = Some (res, k') ->
  (res = ok -> owner_ (mx k') = Some t) /\
  (forall o, owner_ (mx k) = Some o -> owner_ (mx k') = Some o) /\
  (forall o, owner_ (mx k) = Some o -> o <> t ->
     res = EWOULDBLOCK /\ count_ (mx k') = count_ (mx k) /\
     (acquired_mutexes_ <$> threads k' !! t)
       = (acquired_mutexes_ <$> threads k !! t)).
Proof.
  unfold _try_lock, first_lock_protocol, incr_acquired,
    thread_set_priority, thread_priority.
  intros Htry. split; [|split].
  - intros ->. try_lock_cases; simplify_eq; simpl; try done.
    congruence.
  - intros o Ho. rewrite Ho in Htry. try_lock_cases; simplify_eq; simpl; try done.
  - intros o Ho Hne. rewrite Ho in Htry.
    rewrite decide_False in Htry by congruence.
    try_lock_cases; simplify_eq; simpl; try done.
    repeat split; try done. simpl.
    by rewrite lookup_insert_ne.
Qed.

(** ** Contention under the inherit protocol *)

(** X2. Against another owner [_try_lock] returns [EWOULDBLOCK]. With the
    inherit protocol the owner then runs at the higher of its priority
    and the priority of the caller, the boost records the priority of the
    caller when it was the higher one, and no other thread is touched;
    with the other protocols the kernel is not changed at all. *)
Theorem _try_lock_contention (t o : tid) (th oth : thread) (k : kernel) :
  owner_ (mx k) = Some o -> o <> t ->
  threads k !! t = Some th ->
  threads k !! o = Some oth ->
  (protocol_ (mx k) <> inherit -> _try_lock t k = Some (EWOULDBLOCK, k)) /\
  (protocol_ (mx k) = inherit ->
   exists k',
     _try_lock t k = Some (EWOULDBLOCK, k') /\
     thread_priority o k' = Some (Z.max (prio_ oth) (prio_ th)) /\
     (prio_ th > prio_ oth -> boosted_prio_ (mx k') = prio_ th) /\
     (prio_ th <= prio_ oth -> k' = k) /\
     (forall u, u <> o -> threads k' !! u = threads k !! u) /\
     owner_prio_ (mx k') = owner_prio_ (mx k) /\
     list_ (mx k') = list_ (mx k)).
Proof.
  intros Ho Hne Ht Hoth. unfold _try_lock. rewrite Ho.
  rewrite decide_False by congruence. split.
  - intros Hproto. by rewrite decide_False.
  - intros Hproto. rewrite decide_True by done.
    unfold thread_priority, thread_set_priority. rewrite Ht, Hoth. simpl.
    destruct (Z.gtb_spec (prio_ th) (prio_ oth)) as [Hgt|Hle].
    + simpl. rewrite Hoth. simpl. eexists. split; [reflexivity|].
      simpl. rewrite lookup_insert_eq. simpl.
      repeat split; try done; try lia.
      * f_equal. lia.
      * intros u Hu. by rewrite lookup_insert_ne.
    + exists k. rewrite Hoth. simpl.
      repeat split; try done; try lia. f_equal. lia.
Qed.

(** ** The last unlock *)

(** X3. The unlock that gives the mutex up (in thread mode, by the owner,
    not an inner unlock of a recursive mutex) returns [ok] and leaves
    the mutex without owner, count and boost.  It wakes one waiter and
    no more: the head of the waiting list is unlinked and made ready, the
    waiters behind it stay linked in their order.  The owner gets its
    saved priority back when a boost was recorded (and keeps its
    priority otherwise) and has one acquired mutex less; no other thread
    is touched. *)
Theorem unlock_release (crt : tid) (th : thread) (k : kernel) :
  in_handler_mode k = false ->
  owner_ (mx k) = Some crt ->
  type_ (mx k) <> recursive \/ count_ (mx k) <= 1 ->
  threads k !! crt = Some th ->
  crt ∉ list_ (mx k) ->
  (forall w, head (list_ (mx k)) = Some w -> is_Some (threads k !! w)) ->
  exists k',
    unlock crt k = Some (ok, k') /\
    owner_ (mx k') = None /\
    count_ (mx k') = 0 /\
    boosted_prio_ (mx k') = priority.none /\
    list_ (mx k') = tail (list_ (mx k)) /\
    (forall w, head (list_ (mx k)) = Some w ->
               sched_state_ <$> threads k' !! w = Some ready) /\
    threads k' !! crt
      = Some (mk_thread
                (if decide (boosted_prio_ (mx k) <> priority.none)
                 then owner_prio_ (mx k) else prio_ th)
                (interrupted_ th)
                (size_wrap (acquired_mutexes_ th - 1))
                (sched_state_ th)) /\
    (forall u, u <> crt -> head (list_ (mx k)) <> Some u ->
               threads k' !! u = threads k !! u).
Proof.
  intros Hmode Hown Hinner Hth Hnotin Hhead.
  unfold unlock. rewrite Hmode, Hown. rewrite decide_True by done.
  assert (bool_decide (type_ (mx k) = recursive) && (count_ (mx k) >? 1)
          = false) as ->.
  { destruct Hinner as [Hty|Hcnt].
    - by rewrite bool_decide_eq_false_2.
    - destruct (Z.gtb_spec (count_ (mx k)) 1); [lia|]. apply andb_false_r. }
  unfold thread_set_priority, resume_one, resume, set_sched_state,
    decr_acquired.
  destruct (list_ (mx k)) as [|w rest] eqn:Hlist.
  - case_decide as Hboost; simpl.
    + rewrite Hth. simpl. rewrite Hlist. simpl. rewrite lookup_insert_eq.
      simpl. eexists. split; [reflexivity|]. simpl.
      rewrite lookup_insert_eq. repeat split; try done.
      intros u Hu _. by rewrite !lookup_insert_ne.
    + rewrite Hlist. simpl. rewrite Hth. simpl.
      eexists. split; [reflexivity|]. simpl.
      rewrite lookup_insert_eq. repeat split; try done.
      intros u Hu _. by rewrite !lookup_insert_ne.
  - assert (w <> crt) as Hw.
    { intros ->. apply Hnotin. by left. }
    destruct (Hhead w eq_refl) as [wth Hwth].
    case_decide as Hboost; simpl.
    + rewrite Hth. simpl. rewrite Hlist. simpl.
      rewrite lookup_insert_ne by done. rewrite Hwth. simpl.
      rewrite lookup_insert_ne by done. rewrite lookup_insert_eq. simpl.
      eexists. split; [reflexivity|]. simpl.
      rewrite lookup_insert_eq. repeat split; try done.
      * intros w' [= <-]. rewrite lookup_insert_ne by done.
        by rewrite lookup_insert_eq.
      * intros u Hu Hu'. rewrite !lookup_insert_ne; try done.
        intros ->. by apply Hu'.
    + rewrite Hlist. simpl. rewrite Hwth. simpl.
      rewrite lookup_insert_ne by done. rewrite Hth. simpl.
      eexists. split; [reflexivity|]. simpl.
      rewrite lookup_insert_eq. repeat split; try done.
      * intros w' [= <-]. rewrite lookup_insert_ne by done.
        by rewrite lookup_insert_eq.
      * intros u Hu Hu'. rewrite !lookup_insert_ne; try done.
        intros ->. by apply Hu'.
Qed.

(** ** Sequences of calls *)

Lemma run_calls_app (cs1 cs2 : list call) (k k1 k2 : kernel)
    (r1 r2 : list result_t) :
  run_calls cs1 k = Some (r1, k1) ->
  run_calls cs2 k1 = Some (r2, k2) ->
  run_calls (cs1 ++ cs2) k = Some (r1 ++ r2, k2).
Proof.
  revert k r1. induction cs1 as [|c cs1 IH]; intros k r1 H1 H2; simpl in *.
  - by simplify_eq.
  - destruct (run_call c k) as [[res ka]|]; [|done].
    destruct (run_calls cs1 ka) as [[ress kb]|] eqn:Hrest; [|done].
    simplify_eq. by rewrite (IH _ _ Hrest H2).
Qed.

Lemma upd_mx_with_count_id (k : kernel) (c : Z) :
  c = count_ (mx k) -> upd_mx (with_count c) k = k.
Proof.
  intros ->. unfold upd_mx, with_mx, with_count.
  by rewrite mutex_eta, kernel_eta.
Qed.

Lemma relock_calls (t : tid) (n : nat) :
  forall k : kernel,
    in_handler_mode k = false -> recoverable_ (mx k) = true ->
    owner_ (mx k) = Some t -> type_ (mx k) = recursive ->
    count_ (mx k) + Z.of_nat n <= max_count_ (mx k) ->
    run_calls (replicate n (call_try_lock t)) k
    = Some (replicate n ok,
            upd_mx (with_count (count_ (mx k) + Z.of_nat n)) k).
Proof.
  induction n as [|n IH]; intros k Hmode Hrec Hown Hty Hcap.
  - simpl. rewrite upd_mx_with_count_id; [done|lia].
  - simpl. rewrite try_lock_thread_mode, _try_lock_owner by done.
    rewrite Hty.
    destruct (Z.geb_spec (count_ (mx k)) (max_count_ (mx k))); [lia|].
    assert (Hnext := IH (upd_mx (with_count (count_ (mx k) + 1)) k)
                       Hmode Hrec Hown Hty).
    rewrite Hnext by (simpl; lia).
    simpl.
    by replace (count_ (mx k) + 1 + Z.of_nat n)
      with (count_ (mx k) + Z.of_nat (S n)) by lia.
Qed.

Lemma unlock_calls (t : tid) (n : nat) :
  forall k : kernel,
    in_handler_mode k = false ->
    owner_ (mx k) = Some t -> type_ (mx k) = recursive ->
    count_ (mx k) - Z.of_nat n >= 1 ->
    run_calls (replicate n (call_unlock t)) k
    = Some (replicate n ok,
            upd_mx (with_count (count_ (mx k) - Z.of_nat n)) k).
Proof.
  induction n as [|n IH]; intros k Hmode Hown Hty Hcnt.
  - simpl. rewrite upd_mx_with_count_id; [done|lia].
  - simpl. unfold unlock. rewrite Hmode, Hown, Hty.
    rewrite decide_True by done. rewrite bool_decide_eq_true_2 by done.
    destruct (Z.gtb_spec (count_ (mx k)) 1); [|lia]. simpl.
    assert (Hnext := IH (upd_mx (with_count (count_ (mx k) - 1)) k)
                       Hmode Hown Hty).
    rewrite Hnext by (simpl; lia).
    simpl.
    by replace (count_ (mx k) - 1 - Z.of_nat n)
      with (count_ (mx k) - Z.of_nat (S n)) by lia.
Qed.

(** X4. On a recursive mutex held by a thread, [n] further locks by the
    thread that stay within [max_count_], followed by [n] unlocks, all
    return [ok] and give back the kernel as it was: the inner locks and
    unlocks only count, and they count exactly. *)
Theorem relock_unlock_calls (t : tid) (n : nat) (k : kernel) :
  in_handler_mode k = false -> recoverable_ (mx k) = true ->
  owner_ (mx k) = Some t -> type_ (mx k) = recursive ->
  1 <= count_ (mx k) ->
  count_ (mx k) + Z.of_nat n <= max_count_ (mx k) ->
  run_calls (replicate n (call_try_lock t) ++ replicate n (call_unlock t)) k
  = Some (replicate (n + n) ok, k) /\
  exists k1,
    run_calls (replicate n (call_try_lock t)) k = Some (replicate n ok, k1) /\
    count_ (mx k1) = count_ (mx k) + Z.of_nat n.
Proof.
  intros Hmode Hrec Hown Hty Hone Hcap.
  pose proof (relock_calls t n k Hmode Hrec Hown Hty Hcap) as Hlock.
  split; [|by eexists].
  rewrite replicate_add.
  apply (run_calls_app _ _ _ _ _ _ _ Hlock).
  rewrite unlock_calls; try done; [|simpl; lia].
  simpl.
  replace (count_ (mx k) + Z.of_nat n - Z.of_nat n) with (count_ (mx k))
    by lia.
  do 2 f_equal. by apply (upd_mx_with_count_id k).
Qed.

(** X5. Priority inheritance is undone by the unlock. On a free mutex
    of the inherit protocol, [try_lock] by a thread succeeds, [try_lock]
    by a second thread returns [EWOULDBLOCK] and leaves the owner at the
    higher of the two priorities, and the [unlock] of the owner returns
    [ok] and gives back the thread store as it was before the three
    calls: the owner is at its own priority again and holds no mutex
    more than before. *)
Theorem inherit_boost_undone (t u : tid) (th uth : thread) (k : kernel) :
  in_handler_mode k = false -> recoverable_ (mx k) = true ->
  protocol_ (mx k) = inherit ->
  owner_ (mx k) = None ->
  list_ (mx k) = [] ->
  boosted_prio_ (mx k) = priority.none ->
  t <> u ->
  threads k !! t = Some th ->
  threads k !! u = Some uth ->
  0 <= prio_ th ->
  0 <= acquired_mutexes_ th < 2 ^ Z.of_N size_t_bits ->
  exists k2 k3,
    run_calls [call_try_lock t; call_try_lock u] k
      = Some ([ok; EWOULDBLOCK], k2) /\
    owner_ (mx k2) = Some t /\
    thread_priority t k2 = Some (Z.max (prio_ th) (prio_ uth)) /\
    run_calls [call_unlock t] k2 = Some ([ok], k3) /\
    threads k3 = threads k /\
    owner_ (mx k3) = None /\
    count_ (mx k3) = 0 /\
    boosted_prio_ (mx k3) = priority.none.
Proof.
  intros Hmode Hrec Hproto Hown Hlist Hboost Hne Ht Hu Hprio Hacq.
  assert (Hid : <[t := mk_thread (prio_ th) (interrupted_ th)
                         (acquired_mutexes_ th) (sched_state_ th)]>
                  (threads k) = threads k).
  { rewrite thread_eta. by apply insert_id. }
  destruct k as [ts m now sl hm lk]. destruct m. simpl in *. subst.
  unfold try_lock, _try_lock, incr_acquired. simpl. rewrite Ht. simpl.
  unfold first_lock_protocol, thread_priority. simpl.
  rewrite lookup_insert_eq. simpl.
  rewrite decide_False by congruence. simpl.
  rewrite (lookup_insert_ne _ t u) by done. rewrite Hu. simpl.
  rewrite lookup_insert_eq. simpl.
  destruct (Z.gtb_spec (prio_ uth) (prio_ th)) as [Hgt|Hle].
  - unfold thread_set_priority. simpl. rewrite lookup_insert_eq. simpl.
    eexists _, _. split; [reflexivity|]. split; [done|]. simpl.
    rewrite lookup_insert_eq. simpl. split; [f_equal; lia|].
    unfold unlock. simpl. rewrite decide_True by done.
    rewrite andb_false_r.
    rewrite decide_True by (unfold priority.none; lia).
    unfold thread_set_priority. simpl. rewrite lookup_insert_eq. simpl.
    unfold decr_acquired. simpl. rewrite lookup_insert_eq. simpl.
    split; [reflexivity|]. simpl.
    by rewrite !insert_insert_eq, size_wrap_incr_decr, Hid by done.
  - eexists _, _. split; [reflexivity|]. split; [done|]. simpl.
    rewrite lookup_insert_eq. simpl. split; [f_equal; lia|].
    unfold unlock. simpl. rewrite decide_True by done.
    rewrite andb_false_r. simpl.
    unfold decr_acquired. simpl. rewrite lookup_insert_eq. simpl.
    split; [reflexivity|]. simpl.
    by rewrite !insert_insert_eq, size_wrap_incr_decr, Hid by done.
Qed.

(** ** What the blocking calls return *)

(** What [_try_lock] returns and the blocking calls pass on: [EAGAIN] is
    [EWOULDBLOCK] and is not among them. *)
Lemma _try_lock_passed_on (t : tid) (k k1 : kernel) (res : result_t) :
  _try_lock t k = Some (res, k1) -> res <> EWOULDBLOCK ->
  res = ok \/ res = EINVAL \/ res = EDEADLK.
Proof.
  intros Htry Hres. apply _try_lock_result in Htry.
  destruct Htry as [->|[->|[->|[->| ->]]]]; try tauto; by destruct Hres.
Qed.

Lemma lock_loop_result (t : tid) (env : list wakeup) :
  forall (k k' : kernel) (r : result_t),
    lock_loop env t k = Done r k' ->
    r = ok \/ r = EINVAL \/ r = EDEADLK \/ r = EINTR.
Proof.
  induction env as [|w env' IH]; intros k k' r Hloop; simpl in Hloop;
    destruct (_try_lock t k) as [[res k1]|] eqn:Htry; try done;
    case_decide as Hres.
  - simplify_eq. apply _try_lock_passed_on in Htry; tauto.
  - by destruct (_link_node t k1).
  - simplify_eq. apply _try_lock_passed_on in Htry; tauto.
  - destruct (_link_node t k1) as [k2|]; [|done].
    destruct (threads (w k2) !! t) as [th|]; [|done].
    destruct (interrupted_ th).
    + simplify_eq. tauto.
    + apply IH in Hloop. tauto.
Qed.

Lemma timed_lock_loop_result (t : tid) (d : Z) (env : list wakeup) :
  forall (k k' : kernel) (r : result_t),
    timed_lock_loop env t d k = Done r k' ->
    r = ok \/ r = EINVAL \/ r = EDEADLK \/ r = EINTR \/ r = ETIMEDOUT.
Proof.
  induction env as [|w env' IH]; intros k k' r Hloop; simpl in Hloop;
    destruct (_try_lock t k) as [[res k1]|] eqn:Htry; try done;
    case_decide as Hres.
  - simplify_eq. apply _try_lock_passed_on in Htry; tauto.
  - by destruct (_link_node_timeout t d k1).
  - simplify_eq. apply _try_lock_passed_on in Htry; tauto.
  - destruct (_link_node_timeout t d k1) as [k2|]; [|done].
    cbv zeta in Hloop.
    destruct (threads (w k2) !! t) as [th|]; [|done].
    case_decide as Hchk.
    + destruct (timed_lock_failed _); [|done]. simplify_eq.
      unfold timed_lock_check.
      destruct (interrupted_ th); [tauto|].
      destruct (_ >=? _); tauto.
    + apply IH in Hloop. tauto.
Qed.

Lemma _link_node_some (t : tid) (th : thread) (k : kernel) :
  threads k !! t = Some th -> is_Some (_link_node t k).
Proof.
  intros Hth. unfold _link_node, set_sched_state.
  rewrite Hth. simpl. rewrite Hth. simpl. by eexists.
Qed.

(** X6. The blocking calls never report [EWOULDBLOCK], and [EAGAIN] is
    the same number: a result of [lock] is one of [ok], [EPERM],
    [ENOTRECOVERABLE], [EINVAL], [EDEADLK] and [EINTR] (so never
    [ETIMEDOUT] either), and a result of [timed_lock] is one of these or
    [ETIMEDOUT].  So the [EAGAIN] of a recursive mutex at its cap is
    reported by [try_lock] only: in thread mode with the scheduler not
    locked, for the owner of a recoverable recursive mutex whose count
    has reached [max_count_], [try_lock] returns [EAGAIN] and leaves
    the kernel as it is, while [lock] and [timed_lock] link the thread
    into the waiting list and suspend it. *)
Theorem blocking_calls_results (env : list wakeup) (timeout : Z) (t : tid)
    (k k' : kernel) (r : result_t) :
  (lock env t k = Done r k' ->
   (r = ok \/ r = EPERM \/ r = ENOTRECOVERABLE \/ r = EINVAL
    \/ r = EDEADLK \/ r = EINTR) /\
   r <> EWOULDBLOCK /\ r <> EAGAIN) /\
  (timed_lock env timeout t k = Done r k' ->
   (r = ok \/ r = EPERM \/ r = ENOTRECOVERABLE \/ r = EINVAL
    \/ r = EDEADLK \/ r = EINTR \/ r = ETIMEDOUT) /\
   r <> EWOULDBLOCK /\ r <> EAGAIN) /\
  (in_handler_mode k = false -> locked k = false ->
   recoverable_ (mx k) = true ->
   owner_ (mx k) = Some t -> type_ (mx k) = recursive ->
   count_ (mx k) >= max_count_ (mx k) ->
   forall th, threads k !! t = Some th ->
   try_lock t k = Some (EAGAIN, k) /\
   exists k2 k3,
     _link_node t k = Some k2 /\
     lock [] t k = Blocked k2 /\
     _link_node_timeout t (steady_now k + timeout) k = Some k3 /\
     timed_lock [] timeout t k = Blocked k3).
Proof.
  split; [|split].
  - intros Hret.
    assert (r = ok \/ r = EPERM \/ r = ENOTRECOVERABLE \/ r = EINVAL
            \/ r = EDEADLK \/ r = EINTR) as Hr.
    { unfold lock in Hret.
      destruct (in_handler_mode k); [simplify_eq; tauto|].
      destruct (locked k); [simplify_eq; tauto|].
      destruct (recoverable_ (mx k)); simpl in Hret; [|simplify_eq; tauto].
      destruct (_try_lock t k) as [[res k1]|] eqn:Htry; [|done].
      case_decide as Hres.
      - simplify_eq. apply _try_lock_passed_on in Htry; tauto.
      - apply lock_loop_result in Hret. tauto. }
    split; [exact Hr|].
    by destruct Hr as [->|[->|[->|[->|[->| ->]]]]].
  - intros Hret.
    assert (r = ok \/ r = EPERM \/ r = ENOTRECOVERABLE \/ r = EINVAL
            \/ r = EDEADLK \/ r = EINTR \/ r = ETIMEDOUT) as Hr.
    { unfold timed_lock in Hret.
      destruct (in_handler_mode k); [simplify_eq; tauto|].
      destruct (locked k); [simplify_eq; tauto|].
      destruct (recoverable_ (mx k)); simpl in Hret; [|simplify_eq; tauto].
      destruct (_try_lock t k) as [[res k1]|] eqn:Htry; [|done].
      case_decide as Hres.
      - simplify_eq. apply _try_lock_passed_on in Htry; tauto.
      - apply timed_lock_loop_result in Hret. tauto. }
    split; [exact Hr|].
    by destruct Hr as [->|[->|[->|[->|[->|[->| ->]]]]]].
  - intros Hmode Hlck Hrec Hown Hty Hcnt th Hth.
    assert (_try_lock t k = Some (EAGAIN, k)) as Htry.
    { rewrite (_try_lock_owner t k Hown), Hty.
      destruct (Z.geb_spec (count_ (mx k)) (max_count_ (mx k))); [done|lia]. }
    split; [by rewrite try_lock_thread_mode|].
    destruct (_link_node_some t th k Hth) as [k2 Hlink].
    exists k2,
      (with_steady_list
         (link_by_timestamp (steady_now k + timeout, t) (steady_list k2)) k2).
    split; [exact Hlink|]. split; [|split].
    + unfold lock. rewrite Hmode, Hlck, Hrec, Htry. simpl.
      rewrite Htry. simpl. by rewrite Hlink.
    + unfold _link_node_timeout. by rewrite Hlink.
    + unfold timed_lock. rewrite Hmode, Hlck, Hrec, Htry. simpl.
      rewrite Htry. simpl. unfold _link_node_timeout. by rewrite Hlink.
Qed.

(** ** From the owner to a waiter *)

Lemma _try_lock_held_against (o t : tid) (tth : thread) (a : Z)
    (l : list tid) (k : kernel) :
  o <> t ->
  held_against o t tth a l k ->
  exists k1, _try_lock t k = Some (EWOULDBLOCK, k1) /\
             held_against o t tth a l k1.
Proof.
  intros Hne (Hmode & Hproto & Hown & Hcnt & Hlist & Ht & oth & Ho & Ha).
  unfold _try_lock. rewrite Hown. rewrite decide_False by congruence.
  case_decide as Hinh; [|by eexists; split; [|repeat split; eauto]].
  unfold thread_priority, thread_set_priority. rewrite Ht, Ho. simpl.
  destruct (prio_ tth >? prio_ oth).
  - simpl. rewrite Ho. simpl. eexists. split; [reflexivity|].
    repeat split; try done.
    + simpl. by rewrite lookup_insert_ne.
    + simpl. rewrite lookup_insert_eq. by eexists.
  - eexists. split; [reflexivity|]. repeat split; eauto.
Qed.

Lemma _link_node_held_against (o t : tid) (tth : thread) (a : Z)
    (k : kernel) :
  o <> t ->
  held_against o t tth a [] k ->
  exists k2,
    _link_node t k = Some k2 /\
    held_against o t
      (mk_thread (prio_ tth) (interrupted_ tth) (acquired_mutexes_ tth)
         waiting)
      a [t] k2.
Proof.
  intros Hne (Hmode & Hproto & Hown & Hcnt & Hlist & Ht & oth & Ho & Ha).
  unfold _link_node, set_sched_state. rewrite Ht. simpl. rewrite Ht. simpl.
  eexists. split; [reflexivity|]. repeat split; try done.
  - simpl. by rewrite Hlist.
  - simpl. by rewrite lookup_insert_eq.
  - simpl. rewrite lookup_insert_ne by congruence. by eexists.
Qed.

Lemma unlock_held_against (o t : tid) (tth : thread) (a : Z) (k : kernel) :
  o <> t ->
  held_against o t tth a [t] k ->
  exists k3,
    unlock o k = Some (ok, k3) /\
    in_handler_mode k3 = false /\
    protocol_ (mx k3) <> protect /\
    owner_ (mx k3) = None /\
    count_ (mx k3) = 0 /\
    list_ (mx k3) = [] /\
    boosted_prio_ (mx k3) = priority.none /\
    threads k3 !! t
      = Some (mk_thread (prio_ tth) (interrupted_ tth)
                (acquired_mutexes_ tth) ready) /\
    (acquired_mutexes_ <$> threads k3 !! o) = Some (size_wrap (a - 1)).
Proof.
  intros Hne (Hmode & Hproto & Hown & Hcnt & Hlist & Ht & oth & Ho & Ha).
  assert (Hne' : t <> o) by congruence.
  unfold unlock. rewrite Hmode, Hown, Hcnt. rewrite decide_True by done.
  rewrite andb_false_r.
  unfold thread_set_priority, resume_one, resume, set_sched_state,
    decr_acquired.
  case_decide as Hboost; simpl.
  - rewrite Ho. simpl. rewrite Hlist. simpl.
    rewrite (lookup_insert_ne _ o t) by done. rewrite Ht. simpl.
    rewrite (lookup_insert_ne _ t o) by done.
    rewrite lookup_insert_eq. simpl.
    eexists. split; [reflexivity|]. simpl. repeat split; try done.
    + rewrite (lookup_insert_ne _ o t) by done. by rewrite lookup_insert_eq.
    + rewrite lookup_insert_eq. simpl. by rewrite Ha.
  - rewrite Hlist. simpl. rewrite Ht. simpl.
    rewrite (lookup_insert_ne _ t o) by done. rewrite Ho. simpl.
    eexists. split; [reflexivity|]. simpl. repeat split; try done.
    + rewrite (lookup_insert_ne _ o t) by done. by rewrite lookup_insert_eq.
    + rewrite lookup_insert_eq. simpl. by rewrite Ha.
Qed.

Lemma _try_lock_free (t : tid) (tth : thread) (k : kernel) :
  protocol_ (mx k) <> protect ->
  owner_ (mx k) = None ->
  threads k !! t = Some tth ->
  exists k',
    _try_lock t k = Some (ok, k') /\
    owner_ (mx k') = Some t /\
    count_ (mx k') = 1 /\
    list_ (mx k') = list_ (mx k) /\
    boosted_prio_ (mx k') = boosted_prio_ (mx k) /\
    threads k'
      = <[t := mk_thread (prio_ tth) (interrupted_ tth)
                 (size_wrap (acquired_mutexes_ tth + 1)) (sched_state_ tth)]>
          (threads k).
Proof.
  intros Hproto Hown Ht.
  rewrite (_try_lock_unowned t tth k Hown Ht).
  unfold first_lock_protocol, thread_priority. simpl.
  rewrite lookup_insert_eq. simpl.
  case_decide as Hinh; [by eexists|].
  rewrite decide_False by done. by eexists.
Qed.

(** X7. A thread that calls [lock] on a mutex held once by another
    thread (protocol none or inherit, no other waiter) is linked into
    the waiting list; when its wake-up is the [unlock] of the owner, the
    call returns [ok] with the thread as the new owner, the count 1, the
    waiting list empty and no boost left; the thread holds one mutex
    more and the former owner one less. *)
Theorem lock_after_unlock (t o : tid) (th oth : thread) (k : kernel) :
  in_handler_mode k = false -> locked k = false ->
  recoverable_ (mx k) = true ->
  protocol_ (mx k) <> protect ->
  owner_ (mx k) = Some o -> o <> t ->
  count_ (mx k) = 1 ->
  list_ (mx k) = [] ->
  threads k !! t = Some th ->
  threads k !! o = Some oth ->
  interrupted_ th = false ->
  exists k',
    lock [unlock_by o] t k = Done ok k' /\
    owner_ (mx k') = Some t /\
    count_ (mx k') = 1 /\
    list_ (mx k') = [] /\
    boosted_prio_ (mx k') = priority.none /\
    (acquired_mutexes_ <$> threads k' !! t)
      = Some (size_wrap (acquired_mutexes_ th + 1)) /\
    (acquired_mutexes_ <$> threads k' !! o)
      = Some (size_wrap (acquired_mutexes_ oth - 1)).
Proof.
  intros Hmode Hlck Hrec Hproto Hown Hne Hcnt Hlist Ht Ho Hint.
  assert (held_against o t th (acquired_mutexes_ oth) [] k) as Hk.
  { repeat split; try done. by eexists. }
  destruct (_try_lock_held_against _ _ _ _ _ _ Hne Hk) as (k1 & Htry1 & Hk1).
  destruct (_try_lock_held_against _ _ _ _ _ _ Hne Hk1) as (k1' & Htry2 & Hk1').
  destruct (_link_node_held_against _ _ _ _ _ Hne Hk1') as (k2 & Hlink & Hk2).
  destruct (unlock_held_against _ _ _ _ _ Hne Hk2)
    as (k3 & Hunl & Hmode3 & Hproto3 & Hown3 & _ & Hlist3 & Hboost3 & Ht3
        & Ho3).
  destruct (_try_lock_free t _ (_unlink_node t k3) Hproto3 Hown3 Ht3)
    as (k' & Htry3 & Hown' & Hcnt' & Hlist' & Hboost' & Hthreads').
  exists k'. split.
  - unfold lock. rewrite Hmode, Hlck, Hrec, Htry1. simpl.
    rewrite Htry2. simpl. rewrite Hlink.
    unfold unlock_by. rewrite Hunl.
    change (threads (_unlink_node t k3)) with (threads k3).
    rewrite Ht3. simpl. rewrite Hint.
    rewrite Htry3. simpl. done.
  - repeat split; try done.
    + rewrite Hlist'. simpl. by rewrite Hlist3.
    + by rewrite Hboost'.
    + rewrite Hthreads'. by rewrite lookup_insert_eq.
    + rewrite Hthreads'. rewrite lookup_insert_ne by congruence. done.
Qed.

(** ** The priority of the owner after a waiter has left *)

Lemma waiting_max_prio_max (ts : gmap tid thread) (l : list tid) :
  forall p0 : priority_t,
    (forall w, w ∈ l -> is_Some (ts !! w)) ->
    exists M,
      waiting_max_prio ts l p0 = Some M /\
      p0 <= M /\
      (forall w wth, w ∈ l -> ts !! w = Some wth -> prio_ wth <= M) /\
      (M = p0 \/ exists w wth, w ∈ l /\ ts !! w = Some wth /\ prio_ wth = M).
Proof.
  induction l as [|w rest IH]; intros p0 Hlive; simpl.
  - exists p0. split; [done|]. split; [lia|]. split; [|by left].
    intros w wth Hw. by apply elem_of_nil in Hw.
  - destruct (Hlive w) as [wth Hwth]; [by left|]. rewrite Hwth. simpl.
    destruct (IH (if prio_ wth >? p0 then prio_ wth else p0))
      as (M & Hmax & Hge & Hall & Hwit).
    { intros u Hu. apply Hlive. by right. }
    exists M. split; [done|].
    destruct (Z.gtb_spec (prio_ wth) p0) as [Hgt|Hle].
    + split; [lia|]. split.
      * intros u uth Hu Huth. apply elem_of_cons in Hu as [->|Hu].
        -- rewrite Hwth in Huth. simplify_eq. done.
        -- by apply (Hall u).
      * right. destruct Hwit as [->|(u & uth & Hu & Huth & HM)].
        -- exists w, wth. repeat split; try done. by left.
        -- exists u, uth. repeat split; try done. by right.
    + split; [lia|]. split.
      * intros u uth Hu Huth. apply elem_of_cons in Hu as [->|Hu].
        -- rewrite Hwth in Huth. simplify_eq. lia.
        -- by apply (Hall u).
      * destruct Hwit as [->|(u & uth & Hu & Huth & HM)]; [by left|].
        right. exists u, uth. repeat split; try done. by right.
Qed.

(** X8. When a timed lock ends with [EINTR] or [ETIMEDOUT] on a boosted
    mutex whose remaining waiters are live, one of them with a priority
    above [none], the owner is set to the highest priority among the
    remaining waiters, and so is the boost: afterwards no remaining
    waiter has a higher priority than the owner, and one of them has
    exactly its priority.  The saved priority of the owner is not looked
    at. *)
Theorem timed_lock_failed_reevaluates (o : tid) (oth : thread) (k : kernel) :
  boosted_prio_ (mx k) <> priority.none ->
  owner_ (mx k) = Some o ->
  threads k !! o = Some oth ->
  o ∉ list_ (mx k) ->
  (forall w, w ∈ list_ (mx k) -> is_Some (threads k !! w)) ->
  (exists w wth, w ∈ list_ (mx k) /\ threads k !! w = Some wth /\
                 prio_ wth > priority.none) ->
  exists k' M,
    timed_lock_failed k = Some k' /\
    thread_priority o k' = Some M /\
    boosted_prio_ (mx k') = M /\
    (forall w wth, w ∈ list_ (mx k') -> threads k' !! w = Some wth ->
                   prio_ wth <= M) /\
    (exists w wth, w ∈ list_ (mx k') /\ threads k' !! w = Some wth /\
                   prio_ wth = M) /\
    list_ (mx k') = list_ (mx k) /\
    owner_prio_ (mx k') = owner_prio_ (mx k) /\
    (forall u, u <> o -> threads k' !! u = threads k !! u).
Proof.
  intros Hboost Hown Ho Hnotin Hlive (w0 & wth0 & Hw0 & Hwth0 & Hpos).
  destruct (waiting_max_prio_max (threads k) (list_ (mx k)) priority.none
              Hlive) as (M & Hmax & Hge & Hall & Hwit).
  assert (M <> priority.none) as HM.
  { specialize (Hall w0 wth0 Hw0 Hwth0). unfold priority.none in *. lia. }
  destruct Hwit as [?|(w & wth & Hw & Hwth & HwM)]; [done|].
  unfold timed_lock_failed. rewrite decide_True by done.
  rewrite Hmax. simpl. rewrite decide_True by done. simpl.
  rewrite Hown. simpl. unfold thread_set_priority. simpl. rewrite Ho. simpl.
  eexists _, M. split; [reflexivity|]. unfold thread_priority. simpl.
  rewrite lookup_insert_eq. repeat split; try done.
  - intros u uth Hu Huth.
    rewrite lookup_insert_ne in Huth by (intros ->; done).
    by apply (Hall u).
  - exists w, wth. repeat split; try done.
    rewrite lookup_insert_ne; [done|]. intros ->. done.
  - intros u Hu. by rewrite lookup_insert_ne.
Qed.

(** ** Setting the ceiling *)

Lemma lock_free_alone (env : list wakeup) (crt : tid) (th : thread)
    (k : kernel) :
  in_handler_mode k = false -> locked k = false ->
  recoverable_ (mx k) = true ->
  owner_ (mx k) = None ->
  boosted_prio_ (mx k) = priority.none ->
  threads k !! crt = Some th ->
  0 <= prio_ th ->
  (protocol_ (mx k) = protect -> prio_ th <= prio_ceiling_ (mx k)) ->
  exists k1 p,
    lock env crt k = Done ok k1 /\
    in_handler_mode k1 = false /\
    owner_ (mx k1) = Some crt /\
    count_ (mx k1) = 1 /\
    list_ (mx k1) = list_ (mx k) /\
    prio_ceiling_ (mx k1) = prio_ceiling_ (mx k) /\
    type_ (mx k1) = type_ (mx k) /\
    threads k1
      = <[crt := mk_thread p (interrupted_ th)
                   (size_wrap (acquired_mutexes_ th + 1)) (sched_state_ th)]>
          (threads k) /\
    (if decide (boosted_prio_ (mx k1) <> priority.none)
     then owner_prio_ (mx k1) else p) = prio_ th.
Proof.
  intros Hmode Hlck Hrec Hown Hboost Hth Hprio Hceil.
  assert (exists k1 p,
    _try_lock crt k = Some (ok, k1) /\
    in_handler_mode k1 = false /\
    owner_ (mx k1) = Some crt /\
    count_ (mx k1) = 1 /\
    list_ (mx k1) = list_ (mx k) /\
    prio_ceiling_ (mx k1) = prio_ceiling_ (mx k) /\
    type_ (mx k1) = type_ (mx k) /\
    threads k1
      = <[crt := mk_thread p (interrupted_ th)
                   (size_wrap (acquired_mutexes_ th + 1)) (sched_state_ th)]>
          (threads k) /\
    (if decide (boosted_prio_ (mx k1) <> priority.none)
     then owner_prio_ (mx k1) else p) = prio_ th)
    as (k1 & p & Htry & Hrest).
  { rewrite (_try_lock_unowned crt th k Hown Hth).
    unfold first_lock_protocol, thread_priority. simpl.
    rewrite lookup_insert_eq. simpl.
    case_decide as Hinh.
    - eexists _, (prio_ th). split; [reflexivity|]. simpl.
      rewrite Hboost. repeat split; try done.
    - case_decide as Hprot.
      + specialize (Hceil Hprot).
        destruct (Z.gtb_spec (prio_ th) (prio_ceiling_ (mx k))); [lia|].
        destruct (Z.gtb_spec (prio_ceiling_ (mx k)) (prio_ th)) as [Hgt|Hle].
        * unfold thread_set_priority. simpl. rewrite lookup_insert_eq.
          simpl. eexists _, (prio_ceiling_ (mx k)).
          split; [reflexivity|]. simpl.
          rewrite insert_insert_eq.
          rewrite decide_True by (unfold priority.none; lia).
          repeat split; try done.
        * eexists _, (prio_ th). split; [reflexivity|]. simpl.
          rewrite Hboost. repeat split; try done.
      + eexists _, (prio_ th). split; [reflexivity|]. simpl.
        rewrite Hboost. repeat split; try done. }
  exists k1, p. split; [|done]. by apply lock_fast_path.
Qed.

Lemma unlock_alone (crt : tid) (rec : thread) (k : kernel) :
  in_handler_mode k = false ->
  owner_ (mx k) = Some crt ->
  count_ (mx k) = 1 ->
  list_ (mx k) = [] ->
  threads k !! crt = Some rec ->
  exists k3,
    unlock crt k = Some (ok, k3) /\
    owner_ (mx k3) = None /\
    count_ (mx k3) = 0 /\
    boosted_prio_ (mx k3) = priority.none /\
    prio_ceiling_ (mx k3) = prio_ceiling_ (mx k) /\
    in_handler_mode k3 = false /\
    threads k3
      = <[crt := mk_thread
                   (if decide (boosted_prio_ (mx k) <> priority.none)
                    then owner_prio_ (mx k) else prio_ rec)
                   (interrupted_ rec)
                   (size_wrap (acquired_mutexes_ rec - 1))
                   (sched_state_ rec)]>
          (threads k).
Proof.
  intros Hmode Hown Hcnt Hlist Hrec.
  unfold unlock. rewrite Hmode, Hown, Hcnt. rewrite decide_True by done.
  rewrite andb_false_r.
  unfold thread_set_priority, resume_one, decr_acquired.
  case_decide as Hboost; simpl.
  - rewrite Hrec. simpl. rewrite Hlist. simpl. rewrite lookup_insert_eq.
    simpl. eexists. split; [reflexivity|]. simpl.
    by rewrite insert_insert_eq.
  - rewrite Hlist. simpl. rewrite Hrec. simpl.
    eexists. split; [reflexivity|]. by simpl.
Qed.

(** X9. On a free mutex with no waiter and no boost, for a calling thread
    that [lock] accepts (its priority not above the current ceiling when
    the protocol is protect), the setter of the ceiling returns [ok], the
    ceiling is the new value (the getter returns it), the previous
    ceiling is stored through the out-parameter when there is one, and
    the mutex is released again: no owner, count 0, no boost, and the
    thread store as before the call. *)
Theorem prio_ceiling_set_ok (env : list wakeup) (crt : tid) (th : thread)
    (new_ceiling : priority_t) (old : option priority_t) (k : kernel) :
  in_handler_mode k = false -> locked k = false ->
  recoverable_ (mx k) = true ->
  owner_ (mx k) = None ->
  list_ (mx k) = [] ->
  boosted_prio_ (mx k) = priority.none ->
  threads k !! crt = Some th ->
  0 <= prio_ th ->
  0 <= acquired_mutexes_ th < 2 ^ Z.of_N size_t_bits ->
  (protocol_ (mx k) = protect -> prio_ th <= prio_ceiling_ (mx k)) ->
  exists k',
    prio_ceiling_set env crt new_ceiling old k
      = Done (ok, match old with
                  | Some _ => Some (prio_ceiling_ (mx k))
                  | None => None
                  end) k' /\
    prio_ceiling_ (mx k') = new_ceiling /\
    prio_ceiling k' = Some new_ceiling /\
    owner_ (mx k') = None /\
    count_ (mx k') = 0 /\
    boosted_prio_ (mx k') = priority.none /\
    threads k' = threads k.
Proof.
  intros Hmode Hlck Hrec Hown Hlist Hboost Hth Hprio Hacq Hceil.
  destruct (lock_free_alone env crt th k Hmode Hlck Hrec Hown Hboost Hth
              Hprio Hceil)
    as (k1 & p & Hlock & Hmode1 & Hown1 & Hcnt1 & Hlist1 & Hceil1 & _
        & Hthreads1 & Hback).
  set (k2 := upd_mx (with_prio_ceiling new_ceiling) k1).
  destruct (unlock_alone crt
              (mk_thread p (interrupted_ th)
                 (size_wrap (acquired_mutexes_ th + 1)) (sched_state_ th))
              k2)
    as (k3 & Hunl & Hown3 & Hcnt3 & Hboost3 & Hceil3 & Hmode3 & Hthreads3);
    try done.
  { simpl. congruence. }
  { simpl. rewrite Hthreads1. by rewrite lookup_insert_eq. }
  exists k3. split.
  - unfold prio_ceiling_set. rewrite Hmode, Hlock. simpl.
    fold k2. rewrite Hunl. by rewrite Hceil1.
  - unfold prio_ceiling. rewrite Hmode3, Hceil3. repeat split; try done.
    rewrite Hthreads3. simpl. rewrite Hback, Hthreads1.
    rewrite insert_insert_eq, size_wrap_incr_decr by done.
    rewrite thread_eta. by apply insert_id.
Qed.

(** ** Invariants of the calls *)

Lemma _try_lock_keeps (t : tid) (k k' : kernel) (res : result_t) :
  _try_lock t k = Some (res, k') ->
  mutex_inv k -> mutex_inv k' /\ same_attributes k k'.
Proof.
  unfold _try_lock, first_lock_protocol, incr_acquired,
    thread_set_priority, thread_priority.
  intros Htry (Hrec & Hcons & Hfree & Hcnt).
  try_lock_cases; simplify_eq; unfold mutex_inv, same_attributes; simpl;
    repeat split; try done; try lia; try congruence.
Qed.

Lemma resume_list_keeps (l : list tid) :
  forall k k' : kernel,
    resume_list l k = Some k' ->
    mx k' = mx k /\ in_handler_mode k' = in_handler_mode k /\
    locked k' = locked k.
Proof.
  induction l as [|w rest IH]; intros k k' Hres; simpl in Hres.
  - by simplify_eq.
  - unfold resume, set_sched_state in Hres.
    destruct (threads k !! w) as [wth|]; [|done]. simpl in Hres.
    by apply IH in Hres.
Qed.

Lemma unlock_keeps (t : tid) (k k' : kernel) (res : result_t) :
  unlock t k = Some (res, k') ->
  mutex_inv k -> mutex_inv k' /\ same_attributes k k'.
Proof.
  unfold unlock, thread_set_priority, resume_one, resume, set_sched_state,
    decr_acquired.
  intros Hunl (Hrec & Hcons & Hfree & Hcnt).
  destruct (in_handler_mode k); [by simplify_eq|].
  case_decide as Hown; [|by destruct (_ || _); simplify_eq].
  destruct (bool_decide (type_ (mx k) = recursive)
            && (count_ (mx k) >? 1)) eqn:Hinner.
  - apply andb_true_iff in Hinner as [_ Hgt]. apply Z.gtb_lt in Hgt.
    simplify_eq. unfold mutex_inv, same_attributes. simpl.
    repeat split; try done; try lia; congruence.
  - try_lock_cases; simplify_eq; unfold mutex_inv, same_attributes; simpl;
      repeat split; try done; try lia.
Qed.

Lemma reset_keeps (k k' : kernel) (res : result_t) :
  reset k = Some (res, k') ->
  mutex_inv k -> mutex_inv k' /\ same_attributes k k'.
Proof.
  unfold reset, _init, resume_all.
  intros Hres (Hrec & Hcons & Hfree & Hcnt).
  destruct (in_handler_mode k) eqn:Hmode; [by simplify_eq|].
  apply bind_Some in Hres as (k1 & Hlist & Hk). simplify_eq.
  apply resume_list_keeps in Hlist as (Hmx & Hm & Hl).
  unfold mutex_inv, same_attributes. rewrite Hmx, Hm, Hl. simpl.
  repeat split; try done; try lia. by apply Hfree.
Qed.

Lemma consistent_keeps (k : kernel) :
  mutex_inv k ->
  mutex_inv (consistent k).2 /\ same_attributes k (consistent k).2.
Proof.
  unfold consistent. intros (Hrec & Hcons & Hfree & Hcnt).
  destruct (in_handler_mode k); [done|].
  destruct (negb _); [done|]. by rewrite Hcons.
Qed.

Lemma run_call_keeps (c : call) (k k' : kernel) (res : result_t) :
  run_call c k = Some (res, k') ->
  mutex_inv k -> mutex_inv k' /\ same_attributes k k'.
Proof.
  destruct c as [t|t| |]; simpl; intros Hrun Hinv.
  - unfold try_lock in Hrun.
    destruct (in_handler_mode k);
      [simplify_eq; split; [done|]; by repeat split|].
    destruct (negb _);
      [simplify_eq; split; [done|]; by repeat split|].
    by apply (_try_lock_keeps t k k' res).
  - by apply (unlock_keeps t k k' res).
  - pose proof (consistent_keeps k Hinv) as Hk.
    destruct (consistent k). by simplify_eq.
  - by apply (reset_keeps k k' res).
Qed.

Lemma run_calls_keeps (cs : list call) :
  forall (k kn : kernel) (rs : list result_t),
    run_calls cs k = Some (rs, kn) ->
    mutex_inv k -> mutex_inv kn /\ same_attributes k kn.
Proof.
  induction cs as [|c cs IH]; intros k kn rs Hrun Hinv; simpl in Hrun.
  - simplify_eq. split; [done|]. by repeat split.
  - destruct (run_call c k) as [[res k1]|] eqn:Hcall; [|done].
    destruct (run_calls cs k1) as [[ress k2]|] eqn:Hrest; [|done].
    simplify_eq.
    destruct (run_call_keeps c k k1 res Hcall Hinv) as (Hinv1 & Hsame1).
    destruct (IH k1 kn ress Hrest Hinv1) as (Hinvn & Hsamen).
    split; [done|].
    destruct Hsame1 as (? & ? & ? & ? & ? & ? & ?).
    destruct Hsamen as (? & ? & ? & ? & ? & ? & ?).
    repeat split; congruence.
Qed.

(** X11. Whatever calls of [try_lock], [unlock], [consistent] and [reset]
    are made on a mutex after its construction, by whatever threads and
    with whatever results: the mutex stays recoverable and consistent
    (no call clears these flags, so [try_lock] never returns
    [ENOTRECOVERABLE] for them), a mutex without owner has the count 0
    and no boost, the count stays between 0 and the cap, the attributes
    are the ones given to the constructor ([max_count_] being 1 unless
    the type is recursive), and the mutex is not robust, so that
    [consistent] returns [EINVAL]. *)
Theorem constructed_mutex_invariants (attr : attributes) (k0 k kn : kernel)
    (cs : list call) (rs : list result_t) :
  mutex_ctor attr k0 = Some (inr k) ->
  run_calls cs k = Some (rs, kn) ->
  mutex_inv kn /\
  type_ (mx kn) = mx_type attr /\
  protocol_ (mx kn) = mx_protocol attr /\
  robustness_ (mx kn) = stalled /\
  max_count_ (mx kn)
    = (if decide (mx_type attr = recursive) then mx_max_count attr else 1) /\
  prio_ceiling_ (mx kn) = mx_priority_ceiling attr /\
  in_handler_mode kn = false /\
  (consistent kn).1 = EINVAL /\
  (forall t, try_lock t kn = _try_lock t kn).
Proof.
  intros Hctor Hrun.
  assert (mutex_inv k /\ type_ (mx k) = mx_type attr /\
          protocol_ (mx k) = mx_protocol attr /\
          robustness_ (mx k) = stalled /\
          max_count_ (mx k)
            = (if decide (mx_type attr = recursive)
               then mx_max_count attr else 1) /\
          prio_ceiling_ (mx k) = mx_priority_ceiling attr /\
          in_handler_mode k = false)
    as (Hinv & Hty & Hproto & Hrob & Hmax & Hceil & Hmode).
  { unfold mutex_ctor in Hctor. simpl in Hctor.
    destruct (in_handler_mode k0) eqn:Hm0; [done|].
    case_decide as Hrob; [done|].
    unfold _init, resume_all in Hctor. simpl in Hctor. simplify_eq.
    unfold mutex_inv. simpl. repeat split; try done; try lia.
    by destruct (mx_robustness attr). }
  destruct (run_calls_keeps cs k kn rs Hrun Hinv)
    as (Hinvn & Ht & Hp & Hr & Hm & Hc & Hh & _).
  pose proof Hinvn as (Hrec & Hcons & _).
  repeat split; try apply Hinvn; try congruence.
  - unfold consistent. rewrite Hh, Hmode, Hr, Hrob. done.
  - intros t. apply try_lock_thread_mode; congruence.
Qed.

(** ** Calls from an interrupt handler *)

(** X12. In handler mode every operation of the mutex is refused with
    [EPERM] before anything else is looked at (the recoverable flag, the
    owner, the robustness) and changes nothing: [lock], [try_lock],
    [timed_lock], [unlock], the setter of the ceiling (which leaves its
    out-parameter alone), [consistent] and [reset]; the constructor
    leaves with [EPERM], also for a robust mutex.  In thread mode with
    the scheduler locked, [lock] and [timed_lock] are refused in the
    same way. *)
Theorem handler_mode_refused (env : list wakeup) (t : tid) (timeout : Z)
    (new_ceiling : priority_t) (old : option priority_t)
    (attr : attributes) (k : kernel) :
  (in_handler_mode k = true ->
   lock env t k = Done EPERM k /\
   try_lock t k = Some (EPERM, k) /\
   timed_lock env timeout t k = Done EPERM k /\
   unlock t k = Some (EPERM, k) /\
   prio_ceiling_set env t new_ceiling old k = Done (EPERM, old) k /\
   consistent k = (EPERM, k) /\
   reset k = Some (EPERM, k) /\
   mutex_ctor attr k = Some (inl EPERM)) /\
  (in_handler_mode k = false -> locked k = true ->
   lock env t k = Done EPERM k /\
   timed_lock env timeout t k = Done EPERM k).
Proof.
  split.
  - intros Hmode.
    unfold lock, try_lock, timed_lock, unlock, prio_ceiling_set, consistent,
      reset, mutex_ctor.
    simpl. by rewrite Hmode.
  - intros Hmode Hlck. unfold lock, timed_lock. by rewrite Hmode, Hlck.
Qed.

(** ** Thread stacks *)

Lemma stack_elements_cover (s size_bytes : Z) :
  0 < s -> 0 <= size_bytes ->
  size_bytes + s - 1 < 2 ^ Z.of_N size_t_bits ->
  let n := stack_elements s size_bytes in
  0 <= n /\
  size_wrap (n * s) = n * s /\
  size_bytes <= n * s < size_bytes + s.
Proof.
  intros Hs Hb Hfit. unfold stack_elements, size_wrap.
  set (M := 2 ^ Z.of_N size_t_bits) in *.
  assert (0 < M) as HM by (apply Z.pow_pos_nonneg; lia).
  destruct (decide (size_bytes + s < M)) as [Hlt|Hge].
  - rewrite (Z.mod_small (size_bytes + s)) by lia.
    rewrite (Z.mod_small (size_bytes + s - 1)) by lia.
    pose proof (Z.div_mod (size_bytes + s - 1) s ltac:(lia)) as Hdm.
    pose proof (Z.mod_pos_bound (size_bytes + s - 1) s Hs) as Hmod.
    assert (0 <= (size_bytes + s - 1) / s) by (apply Z.div_pos; lia).
    simpl. split; [done|]. split; [apply Z.mod_small; nia|nia].
  - assert (size_bytes + s = M) as Heq by lia.
    rewrite Heq, Z.mod_same by lia. simpl.
    replace (0 - 1) with (M - 1 + (-1) * M) by lia.
    rewrite Z.mod_add by lia. rewrite (Z.mod_small (M - 1)) by lia.
    replace (M - 1) with (size_bytes + s - 1) by lia.
    pose proof (Z.div_mod (size_bytes + s - 1) s ltac:(lia)) as Hdm.
    pose proof (Z.mod_pos_bound (size_bytes + s - 1) s Hs) as Hmod.
    assert (0 <= (size_bytes + s - 1) / s) by (apply Z.div_pos; lia).
    split; [done|]. split; [apply Z.mod_small; nia|nia].
Qed.

(** X13. The stack of an allocated thread. The stack of the attributes
    is used exactly when its address is not null and its size is above
    the minimum; a given stack that is not above the minimum is passed
    over.  Otherwise a stack is allocated for the requested size when
    that is above the minimum and for the default size when it is not;
    as long as the size plus one element fits in [std::size_t], the
    allocated elements cover the size and exceed it by less than one
    element, and the bytes handed to [_construct] are the product
    without wrap-around.  The array of a [thread_static<N>] covers the
    [N] bytes handed to [_construct] in the same way. *)
Theorem thread_stack_covers (s min_size default_size N : Z)
    (attr : thread_attributes) :
  0 < s ->
  0 <= th_stack_size_bytes attr -> 0 <= default_size -> 0 <= N ->
  th_stack_size_bytes attr + s - 1 < 2 ^ Z.of_N size_t_bits ->
  default_size + s - 1 < 2 ^ Z.of_N size_t_bits ->
  N + s - 1 < 2 ^ Z.of_N size_t_bits ->
  (thread_allocated_stack s min_size default_size attr = attributes_stack <->
   th_stack_address attr <> 0 /\ th_stack_size_bytes attr > min_size) /\
  (forall n b,
     thread_allocated_stack s min_size default_size attr
       = allocated_stack n b ->
     let wanted := if th_stack_size_bytes attr >? min_size
                   then th_stack_size_bytes attr else default_size in
     b = n * s /\ wanted <= b < wanted + s) /\
  (let '(n, b) := thread_static_stack s N in
   b = N /\ N <= n * s < N + s).
Proof.
  intros Hs Hsize Hdef HN Hfit Hfitd HfitN.
  unfold thread_allocated_stack, thread_static_stack.
  split; [|split].
  - destruct (Z.eqb_spec (th_stack_address attr) 0) as [Hnull|Haddr];
      destruct (Z.gtb_spec (th_stack_size_bytes attr) min_size);
      simpl;
      (split; [intros Heq; first [done|split; [done|lia]]
              |intros [? ?]; first [done|lia]]).
  - intros n b.
    destruct (Z.eqb_spec (th_stack_address attr) 0) as [Hnull|Haddr];
      destruct (Z.gtb_spec (th_stack_size_bytes attr) min_size) as [Hgt|Hle];
      simpl; try done; intros [= <- <-].
    + by destruct (stack_elements_cover s _ Hs Hsize Hfit) as (_ & -> & ?).
    + by destruct (stack_elements_cover s _ Hs Hdef Hfitd) as (_ & -> & ?).
    + by destruct (stack_elements_cover s _ Hs Hdef Hfitd) as (_ & -> & ?).
  - split; [done|].
    by destruct (stack_elements_cover s _ Hs HN HfitN) as (_ & _ & ?).
Qed.

(** X14. The top of a stack. After [set (address, size_bytes)], [bottom]
    and [size] return what was set, and [top] lies a whole number of
    elements above the bottom, inside the area and less than one element
    below its end; it is the end of the area exactly when the size is a
    multiple of the element size.  After [clear] the bottom and the top
    are null and the size is 0. *)
Theorem stack_top_in_area (se address size_bytes : Z) (st : thread_stack) :
  0 < se -> 0 <= size_bytes ->
  let st' := stack_set address size_bytes st in
  stack_bottom st' = address /\
  stack_size st' = size_bytes /\
  address <= stack_top se st' <= address + size_bytes /\
  address + size_bytes - stack_top se st' < se /\
  (stack_top se st' - address) mod se = 0 /\
  (stack_top se st' = address + size_bytes <-> size_bytes mod se = 0) /\
  stack_bottom (stack_clear st') = 0 /\
  stack_top se (stack_clear st') = 0 /\
  stack_size (stack_clear st') = 0.
Proof.
  intros Hse Hsize. unfold stack_top, stack_bottom, stack_size, stack_set,
    stack_clear. simpl.
  pose proof (Z.div_mod size_bytes se ltac:(lia)) as Hdm.
  pose proof (Z.mod_pos_bound size_bytes se Hse) as Hmod.
  assert (0 <= size_bytes / se) by (apply Z.div_pos; lia).
  split; [done|]. split; [done|]. split; [nia|]. split; [nia|].
  split.
  { replace (address + size_bytes / se * se - address)
      with (size_bytes / se * se) by lia.
    apply Z.mod_mul. lia. }
  split; [split; intros ?; nia|].
  split; [done|]. split; [|done].
  rewrite Z.div_0_l by lia. lia.
Qed.

(** ** A waiter that leaves a free mutex behind *)

(** X10. After a wake-up the waiter looks at its interruption flag and
    at the clock before it tries the mutex again.  A thread waiting in
    [timed_lock] that is woken by the [unlock] of the owner when the
    clock has reached the deadline returns [ETIMEDOUT], and a thread
    waiting in [lock] that is woken by the [unlock] of the owner with its
    interruption flag set returns [EINTR]: in both cases the mutex is
    free and is left free, with no owner, the count 0 and the
    acquired-mutexes counter of the thread as it was. *)
Theorem woken_waiter_leaves_free_mutex (t o : tid) (th oth : thread)
    (timeout now : Z) (k : kernel) :
  in_handler_mode k = false -> locked k = false ->
  recoverable_ (mx k) = true ->
  protocol_ (mx k) <> protect ->
  owner_ (mx k) = Some o -> o <> t ->
  count_ (mx k) = 1 ->
  list_ (mx k) = [] ->
  threads k !! t = Some th ->
  threads k !! o = Some oth ->
  interrupted_ th = false ->
  now >= steady_now k + timeout ->
  (exists k',
     timed_lock [fun k1 => set_clock now (unlock_by o k1)] timeout t k
       = Done ETIMEDOUT k' /\
     owner_ (mx k') = None /\ count_ (mx k') = 0 /\
     (acquired_mutexes_ <$> threads k' !! t) = Some (acquired_mutexes_ th)) /\
  (exists k',
     lock [fun k1 => set_interrupted t (unlock_by o k1)] t k
       = Done EINTR k' /\
     owner_ (mx k') = None /\ count_ (mx k') = 0 /\
     (acquired_mutexes_ <$> threads k' !! t) = Some (acquired_mutexes_ th)).
Proof.
  intros Hmode Hlck Hrec Hproto Hown Hne Hcnt Hlist Ht Ho Hint Hnow.
  assert (held_against o t th (acquired_mutexes_ oth) [] k) as Hk.
  { repeat split; try done. by eexists. }
  destruct (_try_lock_held_against _ _ _ _ _ _ Hne Hk) as (k1 & Htry1 & Hk1).
  destruct (_try_lock_held_against _ _ _ _ _ _ Hne Hk1) as (k1' & Htry2 & Hk1').
  destruct (_link_node_held_against _ _ _ _ _ Hne Hk1') as (k2 & Hlink & Hk2).
  pose proof (_try_lock_steady_now _ _ _ _ Htry1) as Hnow1.
  split.
  - set (d := steady_now k1 + timeout).
    set (k2t := with_steady_list
                  (link_by_timestamp (d, t) (steady_list k2)) k2).
    assert (held_against o t
              (mk_thread (prio_ th) (interrupted_ th) (acquired_mutexes_ th)
                 waiting)
              (acquired_mutexes_ oth) [t] k2t) as Hk2t by exact Hk2.
    destruct (unlock_held_against _ _ _ _ _ Hne Hk2t)
      as (k3 & Hunl & Hmode3 & Hproto3 & Hown3 & Hcnt3 & Hlist3 & Hboost3
          & Ht3 & Ho3).
    eexists. split.
    + unfold timed_lock. rewrite Hmode, Hlck, Hrec, Htry1. simpl.
      rewrite Htry2. simpl.
      unfold _link_node_timeout. rewrite Hlink. simpl.
      fold d. fold k2t. unfold unlock_by. rewrite Hunl.
      rewrite Ht3. unfold timed_lock_check. simpl. rewrite Hint.
      destruct (Z.geb_spec now d) as [_|Hlt]; [|unfold d in Hlt; lia].
      simpl. unfold timed_lock_failed. simpl.
      rewrite decide_False by (intros Hb; by apply Hb).
      reflexivity.
    + simpl. by rewrite Hown3, Hcnt3, Ht3.
  - destruct (unlock_held_against _ _ _ _ _ Hne Hk2)
      as (k3 & Hunl & Hmode3 & Hproto3 & Hown3 & Hcnt3 & Hlist3 & Hboost3
          & Ht3 & Ho3).
    eexists. split.
    + unfold lock. rewrite Hmode, Hlck, Hrec, Htry1. simpl.
      rewrite Htry2. simpl. rewrite Hlink.
      unfold unlock_by. rewrite Hunl.
      unfold set_interrupted. rewrite Ht3. simpl.
      rewrite lookup_insert_eq. reflexivity.
    + simpl. rewrite lookup_insert_eq. by rewrite Hown3, Hcnt3.
Qed.

(** ** The first lock under the protect protocol *)

(** X15. On a free mutex of the protect protocol, the first lock of a
    thread whose priority is not above the ceiling succeeds (through
    [_try_lock], [try_lock] and [lock] alike) and leaves the thread
    running exactly at the ceiling: its own priority is saved in
    [owner_prio_], the boost is recorded when the ceiling is the higher
    of the two, and the thread holds one mutex more. *)
Theorem protect_first_lock (env : list wakeup) (crt : tid) (th : thread)
    (k : kernel) :
  in_handler_mode k = false -> locked k = false ->
  recoverable_ (mx k) = true ->
  protocol_ (mx k) = protect ->
  owner_ (mx k) = None ->
  threads k !! crt = Some th ->
  prio_ th <= prio_ceiling_ (mx k) ->
  exists k',
    _try_lock crt k = Some (ok, k') /\
    try_lock crt k = Some (ok, k') /\
    lock env crt k = Done ok k' /\
    owner_ (mx k') = Some crt /\
    count_ (mx k') = 1 /\
    owner_prio_ (mx k') = prio_ th /\
    thread_priority crt k' = Some (prio_ceiling_ (mx k)) /\
    (prio_ th < prio_ceiling_ (mx k) ->
     boosted_prio_ (mx k') = prio_ceiling_ (mx k)) /\
    (prio_ th = prio_ceiling_ (mx k) ->
     boosted_prio_ (mx k') = boosted_prio_ (mx k)) /\
    (acquired_mutexes_ <$> threads k' !! crt)
      = Some (size_wrap (acquired_mutexes_ th + 1)) /\
    (forall u, u <> crt -> threads k' !! u = threads k !! u).
Proof.
  intros Hmode Hlck Hrec Hproto Hown Hth Hprio.
  assert (exists k',
    _try_lock crt k = Some (ok, k') /\
    owner_ (mx k') = Some crt /\
    count_ (mx k') = 1 /\
    owner_prio_ (mx k') = prio_ th /\
    thread_priority crt k' = Some (prio_ceiling_ (mx k)) /\
    (prio_ th < prio_ceiling_ (mx k) ->
     boosted_prio_ (mx k') = prio_ceiling_ (mx k)) /\
    (prio_ th = prio_ceiling_ (mx k) ->
     boosted_prio_ (mx k') = boosted_prio_ (mx k)) /\
    (acquired_mutexes_ <$> threads k' !! crt)
      = Some (size_wrap (acquired_mutexes_ th + 1)) /\
    (forall u, u <> crt -> threads k' !! u = threads k !! u))
    as (k' & Htry & Hrest).
  { rewrite (_try_lock_unowned crt th k Hown Hth).
    unfold first_lock_protocol, thread_priority. simpl.
    rewrite Hproto, lookup_insert_eq. simpl.
    destruct (Z.gtb_spec (prio_ th) (prio_ceiling_ (mx k))); [lia|].
    destruct (Z.gtb_spec (prio_ceiling_ (mx k)) (prio_ th)) as [Hgt|Hle].
    - unfold thread_set_priority. simpl. rewrite lookup_insert_eq. simpl.
      eexists. split; [reflexivity|]. simpl. rewrite lookup_insert_eq.
      repeat split; try done; try lia.
      intros u Hu. by rewrite !lookup_insert_ne.
    - eexists. split; [reflexivity|]. simpl. rewrite lookup_insert_eq.
      simpl. repeat split; try done; try lia.
      + f_equal. lia.
      + intros u Hu. by rewrite lookup_insert_ne. }
  exists k'. split; [done|]. split; [by rewrite try_lock_thread_mode|].
  split; [by apply lock_fast_path|]. done.
Qed.

(** ** A recursive mutex from the first lock to the last unlock *)

Lemma run_calls_cons (c : call) (cs : list call) (k k1 k2 : kernel)
    (r : result_t) (rs : list result_t) :
  run_call c k = Some (r, k1) ->
  run_calls cs k1 = Some (rs, k2) ->
  run_calls (c :: cs) k = Some (r :: rs, k2).
Proof. intros H1 H2. simpl. by rewrite H1, H2. Qed.

(** X16. On a free recursive mutex with the cap [n + 1] (protocol none
    or inherit, no waiter, no boost), [n + 2] calls of [try_lock] by one
    thread return [ok] [n + 1] times and then [EAGAIN], and the [n + 2]
    calls of [unlock] that follow return [ok] [n + 1] times and then
    [EPERM], the mutex having been given up by the call before; at the
    end the mutex has no owner and the count 0, and the thread store is
    the one before the first call. *)
Theorem recursive_cap_calls (t : tid) (th : thread) (n : nat) (k : kernel) :
  in_handler_mode k = false -> mutex_inv k ->
  type_ (mx k) = recursive ->
  protocol_ (mx k) <> protect ->
  max_count_ (mx k) = Z.of_nat n + 1 ->
  owner_ (mx k) = None ->
  list_ (mx k) = [] ->
  threads k !! t = Some th ->
  0 <= acquired_mutexes_ th < 2 ^ Z.of_N size_t_bits ->
  exists kn,
    run_calls (call_try_lock t :: replicate n (call_try_lock t)
               ++ call_try_lock t :: replicate n (call_unlock t)
               ++ [call_unlock t; call_unlock t]) k
    = Some (ok :: replicate n ok ++ EAGAIN :: replicate n ok ++ [ok; EPERM],
            kn) /\
    owner_ (mx kn) = None /\
    count_ (mx kn) = 0 /\
    threads kn = threads k.
Proof.
  intros Hmode Hinv Hty Hproto Hmax Hown Hlist Hth Hacq.
  pose proof Hinv as (Hrec & _ & Hfree & _).
  destruct (Hfree Hown) as (_ & Hboost).
  (* the first lock *)
  destruct (_try_lock_free t th k Hproto Hown Hth)
    as (k1 & Htry & Hown1 & Hcnt1 & Hlist1 & Hboost1 & Hthreads1).
  destruct (_try_lock_keeps t k k1 ok Htry Hinv)
    as (Hinv1 & Hty1 & _ & _ & Hmax1 & _ & Hmode1 & _).
  pose proof Hinv1 as (Hrec1 & _).
  rewrite Hty in Hty1. rewrite Hmax in Hmax1. rewrite Hmode in Hmode1.
  (* the inner locks *)
  pose proof (relock_calls t n k1 Hmode1 Hrec1 Hown1 Hty1
                ltac:(rewrite Hcnt1, Hmax1; lia)) as Hrelock.
  rewrite Hcnt1 in Hrelock.
  set (k2 := upd_mx (with_count (1 + Z.of_nat n)) k1) in *.
  (* the lock beyond the cap *)
  assert (run_call (call_try_lock t) k2 = Some (EAGAIN, k2)) as Hagain.
  { simpl. rewrite try_lock_thread_mode by done.
    rewrite _try_lock_owner by done. simpl. rewrite Hty1, Hmax1.
    destruct (Z.geb_spec (1 + Z.of_nat n) (Z.of_nat n + 1)); [done|lia]. }
  (* the inner unlocks *)
  pose proof (unlock_calls t n k2 Hmode1 Hown1 Hty1
                ltac:(simpl; lia)) as Hunlocks.
  simpl in Hunlocks.
  replace (1 + Z.of_nat n - Z.of_nat n) with 1 in Hunlocks by lia.
  set (k3 := upd_mx (with_count 1) k2) in *.
  (* the last unlock *)
  destruct (unlock_alone t
              (mk_thread (prio_ th) (interrupted_ th)
                 (size_wrap (acquired_mutexes_ th + 1)) (sched_state_ th))
              k3)
    as (k4 & Hunl & Hown4 & Hcnt4 & Hboost4 & _ & Hmode4 & Hthreads4);
    try done.
  { simpl. by rewrite Hlist1. }
  { simpl. rewrite Hthreads1. by rewrite lookup_insert_eq. }
  (* the unlock of a mutex that is not held *)
  assert (type_ (mx k4) = recursive) as Hty4.
  { assert (mutex_inv k3) as Hinv3.
    { destruct Hinv1 as (? & ? & ? & ?).
      split; [done|]. split; [done|].
      split; [intros Hnone; simpl in Hnone; congruence|]. simpl. lia. }
    destruct (unlock_keeps t k3 k4 ok Hunl Hinv3) as (_ & Hty4 & _).
    by rewrite Hty4. }
  assert (run_call (call_unlock t) k4 = Some (EPERM, k4)) as Hperm.
  { simpl. unfold unlock. rewrite Hmode4, Hown4.
    rewrite decide_False by done. rewrite Hty4.
    by rewrite (bool_decide_eq_true_2 (recursive = recursive)). }
  exists k4. split.
  - apply (run_calls_cons _ _ k k1 k4); [simpl; by rewrite
      try_lock_thread_mode|].
    apply (run_calls_app _ _ k1 k2 k4 _ _ Hrelock).
    apply (run_calls_cons _ _ k2 k2 k4 _ _ Hagain).
    apply (run_calls_app _ _ k2 k3 k4 _ _ Hunlocks).
    apply (run_calls_cons _ _ k3 k4 k4); [exact Hunl|].
    apply (run_calls_cons _ _ k4 k4 k4 _ _ Hperm). reflexivity.
  - split; [done|]. split; [done|].
    rewrite Hthreads4. simpl. rewrite Hthreads1.
    rewrite decide_False.
    + rewrite insert_insert_eq, size_wrap_incr_decr by done.
      rewrite thread_eta. by apply insert_id.
    + simpl. rewrite Hboost1, Hboost. intros Hb. by apply Hb.
Qed.

End Properties.

(** * The properties on the scenarios *)

Import Scenario.
#[local] Existing Instance cortex_m.

(** Scenario 6: the high thread (30) locks the protect mutex of ceiling
    20. *)
Lemma protect_over_ceiling_not_backed_out_witness :
  exists k',
    _try_lock T_high protect_20 = Some (EINVAL, k') /\
    try_lock T_high protect_20 = Some (EINVAL, k') /\
    lock [] T_high protect_20 = Done EINVAL k' /\
    owner_ (mx k') = Some T_high /\
    count_ (mx k') = 1 /\
    (acquired_mutexes_ <$> threads k' !! T_high) = Some (size_wrap (0 + 1)).
Proof.
  apply (protect_over_ceiling_not_backed_out [] T_high (a_thread 30)
           protect_20); reflexivity.
Defined.

(** The low thread holds the mutex, the high thread waits, and the mutex
    is reset: the low thread is still recorded as the owner. *)
Lemma reset_keeps_owner_witness :
  exists k',
    reset held_and_awaited = Some (ok, k') /\
    count_ (mx k') = 0 /\
    consistent_ (mx k') = true /\
    recoverable_ (mx k') = true /\
    list_ (mx k') = [] /\
    (forall t, t ∈ [T_high] ->
               sched_state_ <$> threads k' !! t = Some ready) /\
    owner_ (mx k') = Some T_low /\
    boosted_prio_ (mx k') = priority.none.
Proof.
  apply (reset_keeps_owner held_and_awaited); [reflexivity|].
  intros t Ht. apply list_elem_of_singleton in Ht as ->.
  vm_compute. by eexists.
Defined.

(** Scenario 5, the last step: the low thread (10) was boosted to 30 by
    the high thread, which leaves as the last waiter. *)
Lemma timed_lock_failed_last_waiter_witness :
  list_ (mx inherit_high_woken) = [] /\
  timed_lock_failed inherit_high_woken = Some inherit_high_woken.
Proof.
  split; [reflexivity|].
  apply (timed_lock_failed_last_waiter inherit_high_woken). reflexivity.
Defined.

(** The whole call: [timed_lock (5)] by the high thread on the inherit
    mutex held by the low thread returns [ETIMEDOUT] when the clock
    wakes the thread at 5, and the low thread is left at the priority
    30 with the boost 30, its saved priority being 10. *)
Lemma timed_lock_last_waiter_scenario :
  exists k',
    timed_lock [clock_wakeup 5 T_high] 5 T_high inherit_held_by_low
      = Done ETIMEDOUT k' /\
    owner_ (mx k') = Some T_low /\
    list_ (mx k') = [] /\
    owner_prio_ (mx k') = 10 /\
    boosted_prio_ (mx k') = 30 /\
    thread_priority T_low k' = Some 30.
Proof. eexists. split; [vm_compute; reflexivity|]. by vm_compute. Qed.

(** A recursive mutex constructed with the cap 0 and locked once has the
    count 1, which is not the cap, and the relock returns [EAGAIN], not
    success. *)
Lemma relock_recursive_cap_counterexample :
  owner_ (mx recursive_cap_0_locked) = Some T_low /\
  type_ (mx recursive_cap_0_locked) = recursive /\
  count_ (mx recursive_cap_0_locked) <> max_count_ (mx recursive_cap_0_locked) /\
  _try_lock T_low recursive_cap_0_locked
    = Some (EAGAIN, recursive_cap_0_locked) /\
  ~ (count_ (mx recursive_cap_0_locked) <> max_count_ (mx recursive_cap_0_locked) ->
     exists k', _try_lock T_low recursive_cap_0_locked = Some (ok, k') /\
                count_ (mx k') = count_ (mx recursive_cap_0_locked) + 1).
Proof.
  assert (Htry : _try_lock T_low recursive_cap_0_locked
                 = Some (EAGAIN, recursive_cap_0_locked))
    by (vm_compute; reflexivity).
  repeat split; try done.
  intros Hclaim. destruct Hclaim as (k' & Hok & _); [done|].
  rewrite Htry in Hok. discriminate Hok.
Qed.

Lemma relock_by_owner_witness :
  owner_ (mx recursive_locked_twice) = Some T_low /\
  _try_lock T_low recursive_locked_twice
    = Some (ok, upd_mx (with_count (2 + 1)) recursive_locked_twice) /\
  _try_lock T_low errorcheck_held_by_low
    = Some (EDEADLK, errorcheck_held_by_low) /\
  try_lock T_low errorcheck_held_by_low
    = _try_lock T_low errorcheck_held_by_low.
Proof.
  split; [reflexivity|]. split; [|split].
  - apply (relock_by_owner T_low recursive_locked_twice); try reflexivity.
  - apply (relock_by_owner T_low errorcheck_held_by_low); reflexivity.
  - apply (relock_by_owner T_low errorcheck_held_by_low); reflexivity.
Defined.

Lemma unlock_not_owner_witness :
  in_handler_mode errorcheck_held_by_low = false /\
  owner_ (mx errorcheck_held_by_low) <> Some T_mid /\
  unlock T_mid errorcheck_held_by_low = Some (EPERM, errorcheck_held_by_low) /\
  unlock T_mid protect_20 = Some (ENOTRECOVERABLE, protect_20).
Proof.
  split; [reflexivity|]. split; [discriminate|]. split.
  - apply (unlock_not_owner T_mid errorcheck_held_by_low);
      [reflexivity|discriminate|]. by left.
  - apply (unlock_not_owner T_mid protect_20);
      [reflexivity|discriminate|discriminate|discriminate|discriminate].
Defined.

Lemma unlock_recursive_inner_witness :
  exists k',
    unlock T_low recursive_locked_twice = Some (ok, k') /\
    k' = upd_mx (with_count (2 - 1)) recursive_locked_twice /\
    count_ (mx k') = 2 - 1 /\
    owner_ (mx k') = Some T_low /\
    list_ (mx k') = [] /\
    boosted_prio_ (mx k') = priority.none /\
    owner_prio_ (mx k') = priority.none /\
    threads k' = threads recursive_locked_twice /\
    steady_list k' = [].
Proof.
  apply (unlock_recursive_inner T_low recursive_locked_twice);
    try reflexivity.
Defined.

Lemma prio_ceiling_set_adheres_to_protect_witness :
  exists k',
    prio_ceiling_set [] T_high 40 (Some 0) protect_20
      = Done (EINVAL, Some 0) k' /\
    prio_ceiling_ (mx k') = 20 /\
    owner_ (mx k') = Some T_high.
Proof.
  apply (prio_ceiling_set_adheres_to_protect [] T_high (a_thread 30) 40
           (Some 0) protect_20); reflexivity.
Defined.

Lemma lock_unlock_round_trip_witness :
  exists k1 k2,
    lock [] T_low protect_20 = Done ok k1 /\
    owner_ (mx k1) = Some T_low /\
    unlock T_low k1 = Some (ok, k2) /\
    owner_ (mx k2) = None /\
    count_ (mx k2) = 0 /\
    boosted_prio_ (mx k2) = priority.none /\
    list_ (mx k2) = [] /\
    threads k2 !! T_low = Some (a_thread 10) /\
    threads k2 = threads protect_20 /\
    k2 = upd_mx (with_count 0)
           (upd_mx (with_owner_prio (owner_prio_ (mx k2))) protect_20).
Proof.
  apply (lock_unlock_round_trip [] T_low (a_thread 10) protect_20);
    try reflexivity.
  - simpl. lia.
  - simpl. lia.
  - intros _. simpl. lia.
Defined.


Lemma default_type_relock_witness :
  (exists k', mutex_ctor attr_default (boot attr_default) = Some (inr k') /\
              type_ (mx k') = _default /\ max_count_ (mx k') = 1) /\
  _try_lock T_low default_held_by_low
    = Some (EWOULDBLOCK, default_held_by_low) /\
  (exists k',
     lock [spurious_wakeup T_low; spurious_wakeup T_low] T_low
       default_held_by_low = Blocked k').
Proof.
  destruct (default_type_relock attr_default (boot attr_default) T_low
              default_held_by_low
              [spurious_wakeup T_low; spurious_wakeup T_low])
    as (Hctor & Htry & Hlock).
  split; [|split].
  - apply Hctor; [reflexivity|discriminate|reflexivity].
  - apply Htry; [reflexivity|by left].
  - apply Hlock; try reflexivity.
    + split; [reflexivity|]. split; [reflexivity|].
      exists (mk_thread 10 false 1 running). split; reflexivity.
    + constructor; [apply spurious_wakeup_keeps_relocking|].
      constructor; [apply spurious_wakeup_keeps_relocking|].
      constructor.
Defined.

(** * The further properties on the scenarios *)

Ltac computed := vm_compute; first [reflexivity | discriminate | done].

(** The high thread tries the inherit mutex held by the low thread. *)
Lemma _try_lock_ownership_witness :
  _try_lock T_high inherit_held_by_low = Some (EWOULDBLOCK, inherit_contended)
  /\ owner_ (mx inherit_contended) = Some T_low
  /\ count_ (mx inherit_contended) = count_ (mx inherit_held_by_low).
Proof.
  assert (H : _try_lock T_high inherit_held_by_low
              = Some (EWOULDBLOCK, inherit_contended)) by computed.
  assert (Ho : owner_ (mx inherit_held_by_low) = Some T_low) by computed.
  assert (Hne : T_low <> T_high) by computed.
  split; [exact H|].
  pose proof (_try_lock_ownership T_high inherit_held_by_low inherit_contended
                EWOULDBLOCK H) as (_ & Hkeep & Hother).
  split.
  - exact (Hkeep T_low Ho).
  - exact (proj1 (proj2 (Hother T_low Ho Hne))).
Defined.

Lemma _try_lock_contention_witness :
  exists k',
    _try_lock T_high inherit_held_by_low = Some (EWOULDBLOCK, k') /\
    thread_priority T_low k' = Some (Z.max 10 30).
Proof.
  assert (Ho : owner_ (mx inherit_held_by_low) = Some T_low) by computed.
  assert (Hne : T_low <> T_high) by computed.
  assert (Ht : threads inherit_held_by_low !! T_high = Some (a_thread 30))
    by computed.
  assert (Hoth : threads inherit_held_by_low !! T_low
                 = Some (mk_thread 10 false 1 running)) by computed.
  assert (Hinh : protocol_ (mx inherit_held_by_low) = inherit) by computed.
  pose proof (_try_lock_contention T_high T_low (a_thread 30)
                (mk_thread 10 false 1 running) inherit_held_by_low
                Ho Hne Ht Hoth) as (_ & Hboost).
  destruct (Hboost Hinh) as (k' & Htry & Hprio & _).
  exists k'. split; [exact Htry|exact Hprio].
Defined.

(** The low thread gives up the normal mutex the high thread waits for. *)
Lemma unlock_release_witness :
  exists k',
    unlock T_low held_and_awaited = Some (ok, k') /\
    owner_ (mx k') = None /\
    list_ (mx k') = [] /\
    sched_state_ <$> threads k' !! T_high = Some ready.
Proof.
  assert (Hl : list_ (mx held_and_awaited) = [T_high]) by computed.
  assert (Hnotin : T_low ∉ list_ (mx held_and_awaited)).
  { rewrite Hl. intros Hin. apply list_elem_of_singleton in Hin.
    discriminate Hin. }
  assert (Hhd : forall w, head (list_ (mx held_and_awaited)) = Some w ->
                          is_Some (threads held_and_awaited !! w)).
  { rewrite Hl. intros w [= <-]. vm_compute. by eexists. }
  assert (H1 : in_handler_mode held_and_awaited = false) by computed.
  assert (H2 : owner_ (mx held_and_awaited) = Some T_low) by computed.
  assert (H3 : type_ (mx held_and_awaited) <> recursive
               \/ count_ (mx held_and_awaited) <= 1) by (left; computed).
  assert (H4 : threads held_and_awaited !! T_low
               = Some (mk_thread 10 false 1 running)) by computed.
  pose proof (unlock_release T_low (mk_thread 10 false 1 running)
                held_and_awaited H1 H2 H3 H4 Hnotin Hhd)
    as (k' & Hunl & Hown & _ & _ & Hlist & Hhead & _).
  exists k'. split; [exact Hunl|]. split; [exact Hown|].
  split; [by rewrite Hlist, Hl|].
  apply Hhead. by rewrite Hl.
Defined.

Lemma relock_unlock_calls_witness :
  run_calls (replicate 3 (call_try_lock T_low)
             ++ replicate 3 (call_unlock T_low)) recursive_cap_5_locked
  = Some (replicate (3 + 3) ok, recursive_cap_5_locked).
Proof.
  assert (H1 : in_handler_mode recursive_cap_5_locked = false) by computed.
  assert (H2 : recoverable_ (mx recursive_cap_5_locked) = true) by computed.
  assert (H3 : owner_ (mx recursive_cap_5_locked) = Some T_low) by computed.
  assert (H4 : type_ (mx recursive_cap_5_locked) = recursive) by computed.
  assert (H5 : 1 <= count_ (mx recursive_cap_5_locked)) by computed.
  assert (H6 : count_ (mx recursive_cap_5_locked) + Z.of_nat 3
               <= max_count_ (mx recursive_cap_5_locked)) by computed.
  exact (proj1 (relock_unlock_calls T_low 3 recursive_cap_5_locked
                  H1 H2 H3 H4 H5 H6)).
Defined.

Lemma inherit_boost_undone_witness :
  exists k2 k3,
    run_calls [call_try_lock T_low; call_try_lock T_high]
      (constructed attr_inherit) = Some ([ok; EWOULDBLOCK], k2) /\
    thread_priority T_low k2 = Some (Z.max 10 30) /\
    run_calls [call_unlock T_low] k2 = Some ([ok], k3) /\
    threads k3 = threads (constructed attr_inherit).
Proof.
  assert (H1 : in_handler_mode (constructed attr_inherit) = false)
    by computed.
  assert (H2 : recoverable_ (mx (constructed attr_inherit)) = true)
    by computed.
  assert (H3 : protocol_ (mx (constructed attr_inherit)) = inherit)
    by computed.
  assert (H4 : owner_ (mx (constructed attr_inherit)) = None) by computed.
  assert (H5 : list_ (mx (constructed attr_inherit)) = []) by computed.
  assert (H6 : boosted_prio_ (mx (constructed attr_inherit)) = priority.none)
    by computed.
  assert (H7 : T_low <> T_high) by computed.
  assert (H8 : threads (constructed attr_inherit) !! T_low
               = Some (a_thread 10)) by computed.
  assert (H9 : threads (constructed attr_inherit) !! T_high
               = Some (a_thread 30)) by computed.
  assert (H10 : 0 <= prio_ (a_thread 10)) by computed.
  assert (H11 : 0 <= acquired_mutexes_ (a_thread 10)
                < 2 ^ Z.of_N size_t_bits) by (vm_compute; split; computed).
  pose proof (inherit_boost_undone T_low T_high (a_thread 10) (a_thread 30)
                (constructed attr_inherit)
                H1 H2 H3 H4 H5 H6 H7 H8 H9 H10 H11)
    as (k2 & k3 & Hcalls & _ & Hprio & Hunl & Hthreads & _).
  exists k2, k3. split; [exact Hcalls|]. split; [exact Hprio|].
  split; [exact Hunl|exact Hthreads].
Defined.

(** The call over the ceiling; and the low thread at the cap of its
    recursive mutex: [try_lock] returns [EAGAIN], [lock] and [timed_lock]
    suspend the thread, and the clock ends [timed_lock] with
    [ETIMEDOUT]. *)
Lemma blocking_calls_results_witness :
  (lock [] T_high protect_20
     = Done EINVAL (owned_by T_high (a_thread 30) protect_20)
   /\ EINVAL <> EWOULDBLOCK /\ EINVAL <> EAGAIN) /\
  (timed_lock [clock_wakeup 5 T_low] 5 T_low recursive_at_cap
     = Done ETIMEDOUT recursive_at_cap_timed_out
   /\ ETIMEDOUT <> EWOULDBLOCK /\ ETIMEDOUT <> EAGAIN) /\
  (count_ (mx recursive_at_cap) = 3 /\
   max_count_ (mx recursive_at_cap) = 3 /\
   try_lock T_low recursive_at_cap = Some (EAGAIN, recursive_at_cap) /\
   exists k2 k3,
     _link_node T_low recursive_at_cap = Some k2 /\
     lock [] T_low recursive_at_cap = Blocked k2 /\
     _link_node_timeout T_low (steady_now recursive_at_cap + 5)
       recursive_at_cap = Some k3 /\
     timed_lock [] 5 T_low recursive_at_cap = Blocked k3).
Proof.
  assert (H1 : lock [] T_high protect_20
               = Done EINVAL (owned_by T_high (a_thread 30) protect_20))
    by computed.
  assert (H2 : timed_lock [clock_wakeup 5 T_low] 5 T_low recursive_at_cap
               = Done ETIMEDOUT recursive_at_cap_timed_out) by computed.
  assert (H3 : in_handler_mode recursive_at_cap = false) by computed.
  assert (H4 : locked recursive_at_cap = false) by computed.
  assert (H5 : recoverable_ (mx recursive_at_cap) = true) by computed.
  assert (H6 : owner_ (mx recursive_at_cap) = Some T_low) by computed.
  assert (H7 : type_ (mx recursive_at_cap) = recursive) by computed.
  assert (H8 : count_ (mx recursive_at_cap)
               >= max_count_ (mx recursive_at_cap)) by computed.
  assert (H9 : threads recursive_at_cap !! T_low
               = Some (mk_thread 10 false 1 running)) by computed.
  assert (H10 : count_ (mx recursive_at_cap) = 3) by computed.
  assert (H11 : max_count_ (mx recursive_at_cap) = 3) by computed.
  split; [|split].
  - split; [exact H1|].
    exact (proj2 (proj1 (blocking_calls_results [] 0 T_high protect_20
                           (owned_by T_high (a_thread 30) protect_20) EINVAL)
                    H1)).
  - split; [exact H2|].
    exact (proj2 (proj1 (proj2 (blocking_calls_results
                                  [clock_wakeup 5 T_low] 5 T_low
                                  recursive_at_cap recursive_at_cap_timed_out
                                  ETIMEDOUT)) H2)).
  - split; [exact H10|]. split; [exact H11|].
    exact (proj2 (proj2 (blocking_calls_results [] 5 T_low recursive_at_cap
                           recursive_at_cap ok))
             H3 H4 H5 H6 H7 H8 (mk_thread 10 false 1 running) H9).
Defined.

Lemma lock_after_unlock_witness :
  exists k',
    lock [unlock_by T_low] T_high inherit_held_by_low = Done ok k' /\
    owner_ (mx k') = Some T_high /\
    count_ (mx k') = 1 /\
    list_ (mx k') = [].
Proof.
  assert (H1 : in_handler_mode inherit_held_by_low = false) by computed.
  assert (H2 : locked inherit_held_by_low = false) by computed.
  assert (H3 : recoverable_ (mx inherit_held_by_low) = true) by computed.
  assert (H4 : protocol_ (mx inherit_held_by_low) <> protect) by computed.
  assert (H5 : owner_ (mx inherit_held_by_low) = Some T_low) by computed.
  assert (H6 : T_low <> T_high) by computed.
  assert (H7 : count_ (mx inherit_held_by_low) = 1) by computed.
  assert (H8 : list_ (mx inherit_held_by_low) = []) by computed.
  assert (H9 : threads inherit_held_by_low !! T_high = Some (a_thread 30))
    by computed.
  assert (H10 : threads inherit_held_by_low !! T_low
                = Some (mk_thread 10 false 1 running)) by computed.
  assert (H11 : interrupted_ (a_thread 30) = false) by computed.
  pose proof (lock_after_unlock T_high T_low (a_thread 30)
                (mk_thread 10 false 1 running) inherit_held_by_low
                H1 H2 H3 H4 H5 H6 H7 H8 H9 H10 H11)
    as (k' & Hlock & Hown & Hcnt & Hlist & _).
  exists k'. split; [exact Hlock|]. split; [exact Hown|].
  split; [exact Hcnt|exact Hlist].
Defined.

(** The mid thread (20) was boosted to 30 by the high thread; the high
    thread leaves and the low thread (10) stays: the mid thread is set
    to 10. *)
Lemma timed_lock_failed_reevaluates_witness :
  exists k',
    timed_lock_failed inherit_high_left = Some k' /\
    thread_priority T_mid k' = Some 10 /\
    owner_prio_ (mx k') = 20.
Proof.
  assert (Hl : list_ (mx inherit_high_left) = [T_low]) by computed.
  assert (Hlow : threads inherit_high_left !! T_low
                 = Some (mk_thread 10 false 0 waiting)) by computed.
  assert (Hsv : owner_prio_ (mx inherit_high_left) = 20) by computed.
  assert (Hnotin : T_mid ∉ list_ (mx inherit_high_left)).
  { rewrite Hl. intros Hin. apply list_elem_of_singleton in Hin.
    discriminate Hin. }
  assert (Hlive : forall w, w ∈ list_ (mx inherit_high_left) ->
                            is_Some (threads inherit_high_left !! w)).
  { rewrite Hl. intros w Hw. apply list_elem_of_singleton in Hw as ->.
    rewrite Hlow. by eexists. }
  assert (Hsome : exists w wth,
             w ∈ list_ (mx inherit_high_left) /\
             threads inherit_high_left !! w = Some wth /\
             prio_ wth > priority.none).
  { exists T_low, (mk_thread 10 false 0 waiting). rewrite Hl.
    split; [by apply list_elem_of_singleton|]. split; [exact Hlow|].
    reflexivity. }
  assert (H1 : boosted_prio_ (mx inherit_high_left) <> priority.none)
    by computed.
  assert (H2 : owner_ (mx inherit_high_left) = Some T_mid) by computed.
  assert (H3 : threads inherit_high_left !! T_mid
               = Some (mk_thread 30 false 1 running)) by computed.
  pose proof (timed_lock_failed_reevaluates T_mid
                (mk_thread 30 false 1 running) inherit_high_left
                H1 H2 H3 Hnotin Hlive Hsome)
    as (k' & M & Hfail & Hprio & _ & Hall & (w & wth & Hw & Hwth & HM)
        & Hlist & Hsaved & Hframe).
  exists k'. split; [exact Hfail|]. split.
  - rewrite Hprio. f_equal. rewrite <- HM.
    rewrite Hlist, Hl in Hw. apply list_elem_of_singleton in Hw as ->.
    rewrite Hframe in Hwth by discriminate.
    rewrite Hlow in Hwth. by injection Hwth as <-.
  - by rewrite Hsaved.
Defined.

Lemma prio_ceiling_set_ok_witness :
  exists k',
    prio_ceiling_set [] T_low 40 (Some 0) protect_20
      = Done (ok, Some 20) k' /\
    prio_ceiling k' = Some 40 /\
    owner_ (mx k') = None /\
    threads k' = threads protect_20.
Proof.
  assert (H1 : in_handler_mode protect_20 = false) by computed.
  assert (H2 : locked protect_20 = false) by computed.
  assert (H3 : recoverable_ (mx protect_20) = true) by computed.
  assert (H4 : owner_ (mx protect_20) = None) by computed.
  assert (H5 : list_ (mx protect_20) = []) by computed.
  assert (H6 : boosted_prio_ (mx protect_20) = priority.none) by computed.
  assert (H7 : threads protect_20 !! T_low = Some (a_thread 10)) by computed.
  assert (H8 : 0 <= prio_ (a_thread 10)) by computed.
  assert (H9 : 0 <= acquired_mutexes_ (a_thread 10)
               < 2 ^ Z.of_N size_t_bits) by (vm_compute; split; computed).
  assert (H10 : protocol_ (mx protect_20) = protect ->
                prio_ (a_thread 10) <= prio_ceiling_ (mx protect_20))
    by (intros _; computed).
  assert (Hc : prio_ceiling_ (mx protect_20) = 20) by computed.
  pose proof (prio_ceiling_set_ok [] T_low (a_thread 10) 40 (Some 0)
                protect_20 H1 H2 H3 H4 H5 H6 H7 H8 H9 H10)
    as (k' & Hset & _ & Hget & Hown & _ & _ & Hthreads).
  exists k'. split; [by rewrite Hset, Hc|]. split; [exact Hget|].
  split; [exact Hown|exact Hthreads].
Defined.

Lemma woken_waiter_leaves_free_mutex_witness :
  (exists k',
     timed_lock [fun k1 => set_clock 7 (unlock_by T_low k1)] 5 T_high
       inherit_held_by_low = Done ETIMEDOUT k' /\
     owner_ (mx k') = None) /\
  (exists k',
     lock [fun k1 => set_interrupted T_high (unlock_by T_low k1)] T_high
       inherit_held_by_low = Done EINTR k' /\
     owner_ (mx k') = None).
Proof.
  assert (H1 : in_handler_mode inherit_held_by_low = false) by computed.
  assert (H2 : locked inherit_held_by_low = false) by computed.
  assert (H3 : recoverable_ (mx inherit_held_by_low) = true) by computed.
  assert (H4 : protocol_ (mx inherit_held_by_low) <> protect) by computed.
  assert (H5 : owner_ (mx inherit_held_by_low) = Some T_low) by computed.
  assert (H6 : T_low <> T_high) by computed.
  assert (H7 : count_ (mx inherit_held_by_low) = 1) by computed.
  assert (H8 : list_ (mx inherit_held_by_low) = []) by computed.
  assert (H9 : threads inherit_held_by_low !! T_high = Some (a_thread 30))
    by computed.
  assert (H10 : threads inherit_held_by_low !! T_low
                = Some (mk_thread 10 false 1 running)) by computed.
  assert (H11 : interrupted_ (a_thread 30) = false) by computed.
  assert (H12 : 7 >= steady_now inherit_held_by_low + 5) by computed.
  pose proof (woken_waiter_leaves_free_mutex T_high T_low (a_thread 30)
                (mk_thread 10 false 1 running) 5 7 inherit_held_by_low
                H1 H2 H3 H4 H5 H6 H7 H8 H9 H10 H11 H12)
    as ((k1 & Ht & Hown1 & _) & (k2 & Hl & Hown2 & _)).
  split.
  - exists k1. split; [exact Ht|exact Hown1].
  - exists k2. split; [exact Hl|exact Hown2].
Defined.

Lemma constructed_mutex_invariants_witness :
  run_calls some_calls (constructed (attr_recursive 2))
    = Some ([ok; ok; EAGAIN; ok; ok; EINVAL; EWOULDBLOCK], after_some_calls)
  /\ mutex_inv after_some_calls
  /\ max_count_ (mx after_some_calls) = 2
  /\ (consistent after_some_calls).1 = EINVAL.
Proof.
  assert (Hctor : mutex_ctor (attr_recursive 2) (boot (attr_recursive 2))
                  = Some (inr (constructed (attr_recursive 2))))
    by computed.
  assert (Hrun : run_calls some_calls (constructed (attr_recursive 2))
                 = Some ([ok; ok; EAGAIN; ok; ok; EINVAL; EWOULDBLOCK],
                         after_some_calls)) by computed.
  split; [exact Hrun|].
  pose proof (constructed_mutex_invariants (attr_recursive 2)
                (boot (attr_recursive 2)) (constructed (attr_recursive 2))
                after_some_calls some_calls
                [ok; ok; EAGAIN; ok; ok; EINVAL; EWOULDBLOCK]
                Hctor Hrun)
    as (Hinv & _ & _ & _ & Hmax & _ & _ & Hcons & _).
  split; [exact Hinv|]. split; [exact Hmax|exact Hcons].
Defined.

Lemma handler_mode_refused_witness :
  (lock [] T_low in_handler = Done EPERM in_handler /\
   unlock T_low in_handler = Some (EPERM, in_handler) /\
   mutex_ctor (mk_attributes normal none robust 0 1) in_handler
     = Some (inl EPERM)) /\
  lock [] T_low scheduler_locked = Done EPERM scheduler_locked.
Proof.
  assert (H1 : in_handler_mode in_handler = true) by computed.
  assert (H2 : in_handler_mode scheduler_locked = false) by computed.
  assert (H3 : locked scheduler_locked = true) by computed.
  split.
  - pose proof (proj1 (handler_mode_refused [] T_low 0 0 None
                         (mk_attributes normal none robust 0 1) in_handler)
                  H1)
      as (Hlock & _ & _ & Hunl & _ & _ & _ & Hctor).
    split; [exact Hlock|]. split; [exact Hunl|exact Hctor].
  - exact (proj1 (proj2 (handler_mode_refused [] T_low 0 0 None attr_normal
                           scheduler_locked) H2 H3)).
Defined.

(** Elements of 8 bytes, a minimum of 256 and a default of 2048 bytes:
    the given stack of 100 bytes is passed over and 256 elements are
    allocated; a static thread of 1000 bytes has 125 elements. *)
Lemma thread_stack_covers_witness :
  thread_allocated_stack 8 256 2048 small_stack_attr
    = allocated_stack 256 2048 /\
  (2048 = 256 * 8 /\ 2048 <= 2048 < 2048 + 8) /\
  thread_static_stack 8 1000 = (125, 1000).
Proof.
  assert (H1 : 0 < 8) by computed.
  assert (H2 : 0 <= th_stack_size_bytes small_stack_attr) by computed.
  assert (H3 : 0 <= 2048) by computed.
  assert (H4 : 0 <= 1000) by computed.
  assert (H5 : th_stack_size_bytes small_stack_attr + 8 - 1
               < 2 ^ Z.of_N size_t_bits) by computed.
  assert (H6 : 2048 + 8 - 1 < 2 ^ Z.of_N size_t_bits) by computed.
  assert (H7 : 1000 + 8 - 1 < 2 ^ Z.of_N size_t_bits) by computed.
  assert (Ha : thread_allocated_stack 8 256 2048 small_stack_attr
               = allocated_stack 256 2048) by computed.
  pose proof (thread_stack_covers 8 256 2048 1000 small_stack_attr
                H1 H2 H3 H4 H5 H6 H7) as (_ & Halloc & _).
  split; [exact Ha|]. split; [|computed].
  exact (Halloc 256 2048 Ha).
Defined.

Lemma stack_top_in_area_witness :
  stack_top 4 (stack_set 536870912 1030 (mk_thread_stack 0 0))
    = 536870912 + 1028 /\
  536870912 <= stack_top 4 (stack_set 536870912 1030 (mk_thread_stack 0 0))
    <= 536870912 + 1030.
Proof.
  assert (H1 : 0 < 4) by computed.
  assert (H2 : 0 <= 1030) by computed.
  pose proof (stack_top_in_area 4 536870912 1030 (mk_thread_stack 0 0)
                H1 H2) as (_ & _ & Hin & _).
  split; [computed|exact Hin].
Defined.

Lemma protect_first_lock_witness :
  exists k',
    lock [] T_low protect_20 = Done ok k' /\
    thread_priority T_low k' = Some 20 /\
    owner_prio_ (mx k') = 10.
Proof.
  assert (H1 : in_handler_mode protect_20 = false) by computed.
  assert (H2 : locked protect_20 = false) by computed.
  assert (H3 : recoverable_ (mx protect_20) = true) by computed.
  assert (H4 : protocol_ (mx protect_20) = protect) by computed.
  assert (H5 : owner_ (mx protect_20) = None) by computed.
  assert (H6 : threads protect_20 !! T_low = Some (a_thread 10)) by computed.
  assert (H7 : prio_ (a_thread 10) <= prio_ceiling_ (mx protect_20))
    by computed.
  assert (Hc : prio_ceiling_ (mx protect_20) = 20) by computed.
  pose proof (protect_first_lock [] T_low (a_thread 10) protect_20
                H1 H2 H3 H4 H5 H6 H7)
    as (k' & _ & _ & Hlock & _ & _ & Hsaved & Hprio & _).
  exists k'. split; [exact Hlock|]. split; [by rewrite Hprio, Hc|].
  exact Hsaved.
Defined.

(** Scenario 3: the cap 3, four locks and four unlocks. *)
Lemma recursive_cap_calls_witness :
  exists kn,
    run_calls (call_try_lock T_low :: replicate 2 (call_try_lock T_low)
               ++ call_try_lock T_low :: replicate 2 (call_unlock T_low)
               ++ [call_unlock T_low; call_unlock T_low])
      (constructed (attr_recursive 3))
    = Some (ok :: replicate 2 ok ++ EAGAIN :: replicate 2 ok ++ [ok; EPERM],
            kn) /\
    owner_ (mx kn) = None /\
    count_ (mx kn) = 0 /\
    threads kn = threads (constructed (attr_recursive 3)).
Proof.
  assert (H1 : in_handler_mode (constructed (attr_recursive 3)) = false)
    by computed.
  assert (H2 : mutex_inv (constructed (attr_recursive 3))).
  { split; [computed|]. split; [computed|]. split.
    - intros _. split; computed.
    - vm_compute. split; discriminate. }
  assert (H3 : type_ (mx (constructed (attr_recursive 3))) = recursive)
    by computed.
  assert (H4 : protocol_ (mx (constructed (attr_recursive 3))) <> protect)
    by computed.
  assert (H5 : max_count_ (mx (constructed (attr_recursive 3)))
               = Z.of_nat 2 + 1) by computed.
  assert (H6 : owner_ (mx (constructed (attr_recursive 3))) = None)
    by computed.
  assert (H7 : list_ (mx (constructed (attr_recursive 3))) = [])
    by computed.
  assert (H8 : threads (constructed (attr_recursive 3)) !! T_low
               = Some (a_thread 10)) by computed.
  assert (H9 : 0 <= acquired_mutexes_ (a_thread 10)
               < 2 ^ Z.of_N size_t_bits) by (vm_compute; split; computed).
  exact (recursive_cap_calls T_low (a_thread 10) 2
           (constructed (attr_recursive 3)) H1 H2 H3 H4 H5 H6 H7 H8 H9).
Defined.
